(** * lxc_ssh_setup: a model of [lxc_ssh_setup.py] and its properties

    The script drives a fleet of LXC containers on a Proxmox host towards
    an SSH-ready state by running shell commands through [pct exec].  The
    development below embeds the Python functions of the script one by one
    (same names, same branch structure, same message texts) in a small
    state-and-exception monad over a command oracle, and gives a concrete
    semantics to the three remote commands whose effect the properties
    depend on: the [grep] probe and the [sed] rewrite of [sshd_config],
    and the shell script that updates [authorized_keys].

    Conventions.
    - Python [str] values are [string]s; a character is a code point
      below 256, which covers everything the script compares against.
    - A Python [dict] with string keys is an association list without
      duplicate keys, in insertion order.
    - A [(bool, str)] result tuple is a pair [bool * string].
    - An uncaught Python exception is the [Raise] outcome of the monad. *)

From Stdlib Require Import String Ascii List Bool Arith ZArith Lia.
Import ListNotations.

Open Scope list_scope.
Open Scope string_scope.

(** ** Text primitives of Python and of the shell *)

Module Text.

Definition LF : ascii := ascii_of_nat 10.
Definition CR : ascii := ascii_of_nat 13.
Definition DQUOTE : ascii := ascii_of_nat 34.

Definition NL : string := String LF EmptyString.

(** [str.isspace] on one character (code points below 256). *)
Definition isspace (c : ascii) : bool :=
  let n := nat_of_ascii c in
  (((9 <=? n) && (n <=? 13)) || ((28 <=? n) && (n <=? 32))
   || (n =? 133) || (n =? 160))%nat.

(** The characters at which [str.splitlines] cuts. *)
Definition is_linebreak (c : ascii) : bool :=
  let n := nat_of_ascii c in
  (((10 <=? n) && (n <=? 13)) || ((28 <=? n) && (n <=? 30))
   || (n =? 133))%nat.

(** [str.lower] on one character. *)
Definition lower_char (c : ascii) : ascii :=
  let n := nat_of_ascii c in
  if (((65 <=? n) && (n <=? 90))
      || ((192 <=? n) && (n <=? 222) && negb (n =? 215)))%nat
  then ascii_of_nat (n + 32) else c.

Fixpoint lower (s : string) : string :=
  match s with
  | EmptyString => EmptyString
  | String c t => String (lower_char c) (lower t)
  end.

(** [s.replace(c, '')] for a one-character [c]. *)
Fixpoint remove_char (c : ascii) (s : string) : string :=
  match s with
  | EmptyString => EmptyString
  | String d t => if Ascii.eqb d c then remove_char c t
                  else String d (remove_char c t)
  end.

(** [s.split(sep)] for a one-character separator: never empty. *)
Fixpoint split (sep : ascii) (s : string) : list string :=
  match s with
  | EmptyString => [EmptyString]
  | String c t =>
      if Ascii.eqb c sep then EmptyString :: split sep t
      else match split sep t with
           | h :: r => String c h :: r
           | [] => [String c EmptyString]
           end
  end.

(** [s.splitlines()]: no empty last line, [\r\n] is one break. *)
Fixpoint splitlines (s : string) : list string :=
  match s with
  | EmptyString => []
  | String c t =>
      if is_linebreak c then
        match t with
        | String d t' =>
            if Ascii.eqb c CR && Ascii.eqb d LF
            then EmptyString :: splitlines t'
            else EmptyString :: splitlines t
        | EmptyString => [EmptyString]
        end
      else match splitlines t with
           | h :: r => String c h :: r
           | [] => [String c EmptyString]
           end
  end.

(** Universal-newline translation done by [subprocess.run(text=True)]
    and by [open(..., 'r')]: [\r\n] and a lone [\r] become [\n]. *)
Fixpoint universal_newlines (s : string) : string :=
  match s with
  | EmptyString => EmptyString
  | String c t =>
      if Ascii.eqb c CR then
        match t with
        | String d t' =>
            if Ascii.eqb d LF then String LF (universal_newlines t')
            else String LF (universal_newlines t)
        | EmptyString => NL
        end
      else String c (universal_newlines t)
  end.

Fixpoint lstrip (s : string) : string :=
  match s with
  | EmptyString => EmptyString
  | String c t => if isspace c then lstrip t else s
  end.

Fixpoint rstrip (s : string) : string :=
  match s with
  | EmptyString => EmptyString
  | String c t =>
      match rstrip t with
      | EmptyString => if isspace c then EmptyString else String c EmptyString
      | r => String c r
      end
  end.

(** [s.strip()]. *)
Definition strip (s : string) : string := rstrip (lstrip s).

(** [s.startswith(p)]. *)
Definition startswith (s p : string) : bool := String.prefix p s.

(** [needle in s], also what a fixed-string [grep] tests on a line. *)
Fixpoint contains (needle s : string) : bool :=
  String.prefix needle s
  || match s with
     | EmptyString => false
     | String _ t => contains needle t
     end.

Definition chars (s : string) : list ascii := list_ascii_of_string s.

Definition all_chars (p : ascii -> bool) (s : string) : bool :=
  forallb p (chars s).

(** Joins lines with a newline between them ([split LF] undone). *)
Fixpoint join_lines (ls : list string) : string :=
  match ls with
  | [] => EmptyString
  | [l] => l
  | l :: r => l ++ NL ++ join_lines r
  end.

(** Every line followed by a newline: the output of a line filter. *)
Fixpoint unlines (ls : list string) : string :=
  match ls with
  | [] => EmptyString
  | l :: r => l ++ NL ++ unlines r
  end.

End Text.

Import Text.

(** ** Python dictionaries with string keys *)

Definition dict (V : Type) : Type := list (string * V).

Fixpoint dict_get {V} (k : string) (d : dict V) : option V :=
  match d with
  | [] => None
  | (k', v) :: r => if String.eqb k k' then Some v else dict_get k r
  end.

(** [d[k] = v]: overwrite in place, or append a new key. *)
Fixpoint dict_set {V} (k : string) (v : V) (d : dict V) : dict V :=
  match d with
  | [] => [(k, v)]
  | (k', v') :: r =>
      if String.eqb k k' then (k', v) :: r else (k', v') :: dict_set k v r
  end.

(** ** Exceptions and results *)

Inductive exn : Type :=
| IndexError
| KeyError (key : string).

Inductive res (A : Type) : Type :=
| Ok (a : A)
| Raise (e : exn).

Arguments Ok {A} a.
Arguments Raise {A} e.

(** ** The os-release parser (the pure part of [get_linux_version]) *)

(** The dict comprehension of [get_linux_version]: the key is
    [item[0].lower()], the value is [item[1]] with every double-quote
    character removed; [item[1]] raises [IndexError] on a one-element
    item. *)
Fixpoint dict_of_items (items : list (list string)) (d : dict string)
  : res (dict string) :=
  match items with
  | [] => Ok d
  | item :: rest =>
      match item with
      | k :: v :: _ =>
          dict_of_items rest (dict_set (lower k) (remove_char DQUOTE v) d)
      | _ => Raise IndexError
      end
  end.

Definition parse_os_release (stdout : string) : res (dict string) :=
  dict_of_items (map (split "="%char) (splitlines stdout)) [].

Definition has_equals (line : string) : bool :=
  existsb (Ascii.eqb "="%char) (chars line).

(** ** Commands run inside a container

    Every constructor is one command line that the script hands to
    [pct exec <vmid> --]; the shell text is quoted next to it. *)

Inductive command : Type :=
| CatOsRelease
    (* cat /etc/os-release *)
| CommandVSshd
    (* sh -c 'command -v sshd > /dev/null 2>&1' *)
| RcServiceCheck
    (* sh -c 'rc-update show | grep sshd | grep -q default &&
              rc-service sshd status | grep -q started' *)
| SystemctlCheck
    (* sh -c 'systemctl is-enabled ssh && systemctl is-active ssh' *)
| RcConfigure
    (* sh -c 'rc-update add sshd && rc-service sshd start' *)
| SystemctlConfigure
    (* sh -c 'systemctl enable ssh && systemctl start ssh' *)
| ApkInstall
    (* sh -c 'apk add --no-cache openssh && rc-update add sshd &&
              rc-service sshd start' *)
| AptInstall
    (* sh -c 'apt-get update && apt-get install -y openssh-server &&
              systemctl enable ssh && systemctl start ssh' *)
| YumInstall
    (* sh -c 'yum install -y openssh-server && systemctl enable sshd &&
              systemctl start sshd' *)
| GrepPasswordAuthentication
    (* sh -c '[ -f /etc/ssh/sshd_config ] &&
              grep PasswordAuthentication /etc/ssh/sshd_config || exit 1' *)
| SedPasswordAuthentication (status : string)
    (* sed -E -i 's|^#?(PasswordAuthentication)\s.*|\1 <status>|'
           /etc/ssh/sshd_config *)
| ServiceSshRestart
    (* service ssh restart *)
| SystemctlRestartSsh
    (* systemctl restart ssh *)
| KeysScript (keys : string) (remove_existing : bool).
    (* sh -c '<script_content>' with $1 := keys and
       $2 := true / false substituted in the text *)

(** The commands that install a package or enable / start a service. *)
Definition installs_or_enables (c : command) : bool :=
  match c with
  | RcConfigure | SystemctlConfigure
  | ApkInstall | AptInstall | YumInstall => true
  | _ => false
  end.

(** [subprocess.CompletedProcess], [stdout] and [stderr] as text. *)
Record CompletedProcess : Type := {
  returncode : Z;
  stdout : string;
  stderr : string
}.

(** ** The host: state, console and exceptions *)

(** What the script writes to the terminal: a [print] or one call of
    [print_progress_bar(iteration, total, message=..., suffix=...)]. *)
Inductive output : Type :=
| Print (text : string)
| ProgressBar (iteration total : nat) (message : option string)
              (suffix : string).

Record host (World : Type) : Type := {
  world : World;
  trace : list (string * command);
  console : list output
}.

Arguments world {World} h.
Arguments trace {World} h.
Arguments console {World} h.

Definition M (World A : Type) : Type := host World -> res A * host World.

Definition ret {World A} (a : A) : M World A := fun h => (Ok a, h).

Definition raise {World A} (e : exn) : M World A := fun h => (Raise e, h).

Definition bind {World A B} (m : M World A) (k : A -> M World B)
  : M World B :=
  fun h => match m h with
           | (Ok a, h') => k a h'
           | (Raise e, h') => (Raise e, h')
           end.

Definition lift {World A} (r : res A) : M World A := fun h => (r, h).

Notation "x <- m ;; k" := (bind m (fun x => k))
  (at level 61, m at next level, right associativity).
Notation "m ;;; k" := (bind m (fun _ => k))
  (at level 61, right associativity).

(** A container as [get_lxc_containers] builds it; [main] adds the
    ['version'] entry for running containers. *)
Record container : Type := {
  vmid : string;
  running : bool;
  version : option (dict string)
}.

Definition set_version (c : container) (v : dict string) : container :=
  {| vmid := vmid c; running := running c; version := Some v |}.

(** [container['version']['id']]. *)
Definition version_id (c : container) : res string :=
  match version c with
  | None => Raise (KeyError "version")
  | Some v => match dict_get "id" v with
              | Some i => Ok i
              | None => Raise (KeyError "id")
              end
  end.

(** The [if] / [elif] chain of [install_openssh] that picks the install
    command from [container['version']['id']]; [None] is the final
    [else], which returns without running anything. *)
Definition install_command_for (id : string) : option command :=
  if id =? "alpine" then Some ApkInstall
  else if existsb (String.eqb id) ["debian"; "ubuntu"] then Some AptInstall
  else if existsb (String.eqb id) ["centos"; "rhel"; "fedora"]
  then Some YumInstall
  else None.

Section Host.

Variable World : Type.

(** [pct exec vmid -- command]: what the container answers, and the
    world afterwards. *)
Variable pct_exec : string -> command -> World -> CompletedProcess * World.

(** Files on the host, as text: [None] when there is no such file,
    [Some content] when the file is there and is read as text.  The
    file does not change during a run.  A path that exists and cannot
    be opened or decoded is outside this model: in the source
    [os.path.exists] is true for it and [open] or [read] raises an
    exception that nothing catches. *)
Variable host_file : string -> option string.

Definition subprocess_run (v : string) (c : command)
  : M World CompletedProcess :=
  fun h => let (r, w) := pct_exec v c (world h) in
           (Ok r, {| world := w;
                     trace := (trace h ++ [(v, c)])%list;
                     console := console h |}).

Definition run_command_silently (v : string) (c : command)
  : M World CompletedProcess :=
  subprocess_run v c.

Definition emit (o : output) : M World unit :=
  fun h => (Ok tt, {| world := world h;
                      trace := trace h;
                      console := (console h ++ [o])%list |}).

Definition print (text : string) : M World unit := emit (Print text).

Definition print_progress_bar (iteration total : nat)
    (message : option string) (suffix : string) : M World unit :=
  emit (ProgressBar iteration total message suffix).

Definition get_linux_version (v : string) : M World (dict string) :=
  result <- subprocess_run v CatOsRelease ;;
  lift (parse_os_release (stdout result)).

Definition install_openssh (c : container) : M World (bool * string) :=
  check_result <- subprocess_run (vmid c) CommandVSshd ;;
  if (returncode check_result =? 0)%Z then
    id <- lift (version_id c) ;;
    service_check_result <-
      subprocess_run (vmid c)
        (if id =? "alpine" then RcServiceCheck else SystemctlCheck) ;;
    if (returncode service_check_result =? 0)%Z then
      ret (false, "OpenSSH is already installed and properly configured.")
    else
      id <- lift (version_id c) ;;
      run_command_silently (vmid c)
        (if id =? "alpine" then RcConfigure else SystemctlConfigure) ;;;
      ret (true, "SSH service started and enabled.")
  else
    id <- lift (version_id c) ;;
    match install_command_for id with
    | None => ret (false, "Unsupported Linux distribution, " ++ id ++ ".")
    | Some install_command =>
        install_result <- subprocess_run (vmid c) install_command ;;
        if negb (returncode install_result =? 0)%Z then
          ret (false, "Failed to install OpenSSH in container " ++ vmid c
                      ++ ": " ++ strip (stderr install_result))
        else
          ret (true,
               "OpenSSH successfully installed and configured in container "
               ++ vmid c ++ ".")
    end.

Definition set_ssh_password_authentication (c : container) (status : string)
  : M World (bool * string) :=
  result <- subprocess_run (vmid c) GrepPasswordAuthentication ;;
  if negb (returncode result =? 0)%Z then
    ret (true, "SSH not installed or not configured.")
  else if existsb (fun line =>
                     startswith line ("PasswordAuthentication " ++ status))
                  (splitlines (stdout result))
  then ret (false, "Already set to the desired status.")
  else
    subprocess_run (vmid c) (SedPasswordAuthentication status) ;;;
    id <- lift (version_id c) ;;
    subprocess_run (vmid c)
      (if id =? "alpine" then ServiceSshRestart else SystemctlRestartSsh) ;;;
    ret (true, "PasswordAuthentication set to " ++ status).

Definition add_ssh_public_keys (c : container) (key_file : string)
    (remove_existing : bool) : M World (bool * string) :=
  match host_file key_file with
  | None => ret (false, "Key file '" ++ key_file ++ "' not found.")
  | Some content =>
      let keys := strip content in
      if keys =? "" then ret (false, "Key file is empty.")
      else
        result <- subprocess_run (vmid c) (KeysScript keys remove_existing) ;;
        if (returncode result =? 0)%Z then
          ret (false, "No changes were made to container.")
        else if (returncode result =? 1)%Z then
          ret (true, "SSH keys successfully added to container.")
        else
          ret (true, "Failed to add SSH keys to container: "
                     ++ strip (stderr result))
  end.

(** *** [main]

    [main] starts from the dictionary that [get_lxc_containers] returns
    (name to container, in the order of [pct list]); that dictionary is
    the parameter [containers]. *)

Definition not_running_message (name : string) (data : container) : string :=
  "Container " ++ name ++ " (" ++ vmid data ++ ") is not running.".

Definition changed_message (name : string) (data : container)
    (message : string) : string :=
  "Container " ++ name ++ " (" ++ vmid data ++ ") " ++ message.

(** The first loop: fetch the os-release data of running containers. *)
Fixpoint os_info_loop (container_count i : nat) (items : dict container)
  : M World (dict container) :=
  match items with
  | [] => ret []
  | (name, data) :: rest =>
      data' <-
        (if running data then
           v <- get_linux_version (vmid data) ;;
           print_progress_bar (i + 1) container_count None name ;;;
           ret (set_version data v)
         else
           print_progress_bar (i + 1) container_count
             (Some (not_running_message name data)) name ;;;
           ret data) ;;
      rest' <- os_info_loop container_count (S i) rest ;;
      ret ((name, data') :: rest')
  end.

(** The three reconciler loops have the same shape. *)
Fixpoint reconcile_loop (reconciler : container -> M World (bool * string))
    (container_count i : nat) (items : dict container) : M World unit :=
  match items with
  | [] => ret tt
  | (name, data) :: rest =>
      (if running data then
         r <- reconciler data ;;
         let (result, message) := r in
         print_progress_bar (i + 1) container_count
           (if result then Some (changed_message name data message)
            else None) name
       else
         print_progress_bar (i + 1) container_count
           (Some (not_running_message name data)) name) ;;;
      reconcile_loop reconciler container_count (S i) rest
  end.

Definition main (containers : dict container) : M World unit :=
  print "Getting containers IDs." ;;;
  let container_count := length containers in
  print (NL ++ "Getting container operating system info:") ;;;
  containers <- os_info_loop container_count 0 containers ;;
  print (NL ++ "Installing OpenSSH into containers if needed:") ;;;
  reconcile_loop install_openssh container_count 0 containers ;;;
  print (NL ++ "Disabling SSH password authentication in containers:") ;;;
  reconcile_loop (fun c => set_ssh_password_authentication c "no")
    container_count 0 containers ;;;
  match host_file "keys.pub" with
  | Some _ =>
      print (NL ++ "Replacing public SSH keys in containers:") ;;;
      reconcile_loop (fun c => add_ssh_public_keys c "keys.pub" true)
        container_count 0 containers
  | None =>
      print (NL ++ "Replacing public SSH keys is not possible. "
                ++ "Create keys.pub file.")
  end.

End Host.

Arguments subprocess_run {World} pct_exec v c h.
Arguments get_linux_version {World} pct_exec v h.
Arguments install_openssh {World} pct_exec c h.
Arguments set_ssh_password_authentication {World} pct_exec c status h.
Arguments add_ssh_public_keys {World} pct_exec host_file c key_file
  remove_existing h.
Arguments os_info_loop {World} pct_exec container_count i items h.
Arguments reconcile_loop {World} reconciler container_count i items h.
Arguments main {World} pct_exec host_file containers h.

Definition start {World} (w : World) : host World :=
  {| world := w; trace := []; console := [] |}.

(** ** Inside the container: the files the commands read and write *)

(** The part of a container that the modelled commands touch.
    [read_only] stands for a root file system on which nothing can be
    created or changed; modes are the permission bits of the entry. *)
Record container_state : Type := {
  read_only : bool;
  sshd_config : option string;             (* /etc/ssh/sshd_config *)
  root_ssh : option N;                     (* /root/.ssh, its mode *)
  authorized_keys : option (string * N)    (* /root/.ssh/authorized_keys *)
}.

(** The lines of a text file as line-oriented tools see them: a final
    newline ends the last line, it does not start an empty one. *)
Definition text_lines (s : string) : list string :=
  let ls := split LF s in
  match last ls "x" with
  | EmptyString => removelast ls
  | _ => ls
  end.

(** *** The fragment of POSIX extended regular expressions that the
    [sed] command uses, matched at the start of a line *)

Inductive regex : Type :=
| Eps
| Chr (p : ascii -> bool)
| Seq (r1 r2 : regex)
| Opt (r : regex)
| StarChr (p : ascii -> bool).

Fixpoint lit (s : string) : regex :=
  match s with
  | EmptyString => Eps
  | String c t => Seq (Chr (Ascii.eqb c)) (lit t)
  end.

(** After a run of characters in [p], longest run first. *)
Fixpoint star_rests (p : ascii -> bool) (s : string) : list string :=
  match s with
  | EmptyString => [EmptyString]
  | String c t => if p c then (star_rests p t ++ [s])%list else [s]
  end.

(** [rests r s]: what can remain of [s] after [r] has matched a prefix
    of it, the greedy choices first. *)
Fixpoint rests (r : regex) (s : string) : list string :=
  match r with
  | Eps => [s]
  | Chr p => match s with
             | String c t => if p c then [t] else []
             | EmptyString => []
             end
  | Seq r1 r2 => flat_map (rests r2) (rests r1 s)
  | Opt r1 => (rests r1 s ++ [s])%list
  | StarChr p => star_rests p s
  end.

(** The shortest remainder, that is the longest match (POSIX picks the
    longest of the leftmost matches). *)
Fixpoint shortest (ts : list string) : option string :=
  match ts with
  | [] => None
  | t :: r => match shortest r with
              | None => Some t
              | Some u => if (String.length t <=? String.length u)%nat
                          then Some t else Some u
              end
  end.

(** The replacement text of [s///]: [&] is the whole match, [\1] the
    first group, a backslash before any other character keeps that
    character. *)
Fixpoint expand (replacement whole group1 : string) : string :=
  match replacement with
  | EmptyString => EmptyString
  | String c r =>
      if Ascii.eqb c "&" then whole ++ expand r whole group1
      else if Ascii.eqb c "\" then
        match r with
        | String d r' =>
            if Ascii.eqb d "1" then group1 ++ expand r' whole group1
            else String d (expand r' whole group1)
        | EmptyString => String c EmptyString
        end
      else String c (expand r whole group1)
  end.

(** [s|^pattern|replacement|] applied to one line; [group1] is the text
    of the first parenthesis, which here encloses a literal. *)
Definition substitute (pattern : regex) (group1 replacement line : string)
  : string :=
  match shortest (rests pattern line) with
  | None => line
  | Some rest =>
      let whole :=
        substring 0 (String.length line - String.length rest) line in
      expand replacement whole group1 ++ rest
  end.

(** [\s] *)
Definition posix_space (c : ascii) : bool :=
  let n := nat_of_ascii c in
  (((9 <=? n) && (n <=? 13)) || (n =? 32))%nat.

(** [.] *)
Definition any_char (c : ascii) : bool := true.

(** [^#?(PasswordAuthentication)\s.*] *)
Definition sed_pattern : regex :=
  Seq (Opt (Chr (Ascii.eqb "#")))
      (Seq (lit "PasswordAuthentication")
           (Seq (Chr posix_space) (StarChr any_char))).

(** [\1 <status>] *)
Definition sed_replacement (status : string) : string := "\1 " ++ status.

Definition sed_line (status line : string) : string :=
  substitute sed_pattern "PasswordAuthentication" (sed_replacement status)
    line.

(** [sed -E -i 's|...|...|' file] on the text of the file.  The text is
    cut at every newline and glued back, so a final newline (or its
    absence) is kept; the empty piece after a final newline matches
    nothing. *)
Definition sed_text (status text : string) : string :=
  join_lines (map (sed_line status) (split LF text)).

(** [grep PasswordAuthentication file]: the lines that contain the
    word, each followed by a newline. *)
Definition grep_lines (text : string) : list string :=
  filter (contains "PasswordAuthentication") (text_lines text).

Definition completed (code : Z) (out : string) : CompletedProcess :=
  {| returncode := code; stdout := universal_newlines out; stderr := "" |}.

(** [[ -f /etc/ssh/sshd_config ] && grep ... || exit 1] *)
Definition grep_probe (st : container_state) : CompletedProcess :=
  match sshd_config st with
  | None => completed 1 ""
  | Some text =>
      match grep_lines text with
      | [] => completed 1 ""
      | ls => completed 0 (unlines ls)
      end
  end.

Definition set_sshd_config (st : container_state) (text : string)
  : container_state :=
  {| read_only := read_only st;
     sshd_config := Some text;
     root_ssh := root_ssh st;
     authorized_keys := authorized_keys st |}.

(** The in-place edit replaces the file, which fails on a read-only
    file system (status 4) or when the file is not there (status 2). *)
Definition sed_in_place (status : string) (st : container_state)
  : CompletedProcess * container_state :=
  match sshd_config st with
  | Some text =>
      if read_only st then (completed 4 "", st)
      else (completed 0 "", set_sshd_config st (sed_text status text))
  | None => (completed 2 "", st)
  end.

(** *** The shell script of [add_ssh_public_keys]

    The script is modelled command by command in a monad for [sh]:
    a state of shell variables and files, and [exit] as the second
    outcome.  The text substitution of [$1] and [$2] done in Python
    becomes the two first assignments; this is what the shell sees as
    long as the key text has no quote, dollar, backquote or backslash
    in it. *)

Inductive var : Type :=
| KEYS | REMOVE_EXISTING | AUTHORIZED_KEYS | EXISTING_KEYS | UPDATED_KEYS
| key.

Definition var_eqb (x y : var) : bool :=
  match x, y with
  | KEYS, KEYS | REMOVE_EXISTING, REMOVE_EXISTING
  | AUTHORIZED_KEYS, AUTHORIZED_KEYS | EXISTING_KEYS, EXISTING_KEYS
  | UPDATED_KEYS, UPDATED_KEYS | key, key => true
  | _, _ => false
  end.

Record shell : Type := {
  env : var -> string;
  files : container_state
}.

Inductive step (A : Type) : Type :=
| Next (a : A) (s : shell)
| Exit (code : Z) (s : shell).

Arguments Next {A} a s.
Arguments Exit {A} code s.

Definition sh (A : Type) : Type := shell -> step A.

Definition sh_ret {A} (a : A) : sh A := fun s => Next a s.

Definition sh_bind {A B} (m : sh A) (k : A -> sh B) : sh B :=
  fun s => match m s with
           | Next a s' => k a s'
           | Exit code s' => Exit code s'
           end.

Declare Scope sh_scope.
Delimit Scope sh_scope with sh.

Notation "x <~ m ; k" := (sh_bind m (fun x => k))
  (at level 61, m at next level, right associativity) : sh_scope.
Notation "m ;> k" := (sh_bind m (fun _ => k))
  (at level 61, right associativity) : sh_scope.

(** [x=value] *)
Definition assign (x : var) (value : string) : sh unit :=
  fun s => Next tt {| env := fun y => if var_eqb x y then value else env s y;
                      files := files s |}.

(** [$x] *)
Definition value_of (x : var) : sh string := fun s => Next (env s x) s.

(** [exit code] *)
Definition exit (code : Z) : sh unit := fun s => Exit code s.

Definition on_files (f : container_state -> container_state) : sh unit :=
  fun s => Next tt {| env := env s; files := f (files s) |}.

(** [mkdir -p /root/.ssh]; a failure is only a non-zero status, which
    the script never looks at. *)
Definition mkdir_p_root_ssh : sh unit :=
  on_files (fun st =>
    match root_ssh st with
    | Some _ => st
    | None =>
        if read_only st then st
        else {| read_only := read_only st;
                sshd_config := sshd_config st;
                root_ssh := Some 493%N;
                authorized_keys := authorized_keys st |}
    end).

(** [chmod mode /root/.ssh] *)
Definition chmod_root_ssh (mode : N) : sh unit :=
  on_files (fun st =>
    match root_ssh st with
    | Some _ =>
        if read_only st then st
        else {| read_only := read_only st;
                sshd_config := sshd_config st;
                root_ssh := Some mode;
                authorized_keys := authorized_keys st |}
    | None => st
    end).

(** [[ -f "$AUTHORIZED_KEYS" ]] *)
Definition test_f_authorized_keys : sh bool :=
  fun s => Next (match authorized_keys (files s) with
                 | Some _ => true
                 | None => false
                 end) s.

(** A command substitution drops every trailing newline. *)
Fixpoint drop_trailing_newlines (s : string) : string :=
  match s with
  | EmptyString => EmptyString
  | String c t =>
      match drop_trailing_newlines t with
      | EmptyString =>
          if Ascii.eqb c LF then EmptyString else String c EmptyString
      | r => String c r
      end
  end.

(** [$(cat "$AUTHORIZED_KEYS")] *)
Definition cat_authorized_keys : sh string :=
  fun s => Next (match authorized_keys (files s) with
                 | Some (text, _) => drop_trailing_newlines text
                 | None => EmptyString
                 end) s.

(** [echo "$x"] writes the value and a newline.  This is what every
    [sh] does for a value without a backslash that does not start with
    a dash; with a backslash the [echo] of [dash] expands escapes, and
    [-n] is an option.  The theorems on the key script that depend on
    what is written ask for a [shell_safe] key text. *)
Definition echo (value : string) : string := value ++ NL.

(** [... > "$AUTHORIZED_KEYS"]: needs the directory and a writable file
    system; a new file gets mode 644.  When the file cannot be opened
    the command is not run and the script goes on. *)
Definition write_authorized_keys (text : string) : sh unit :=
  on_files (fun st =>
    match root_ssh st with
    | Some _ =>
        if read_only st then st
        else {| read_only := read_only st;
                sshd_config := sshd_config st;
                root_ssh := root_ssh st;
                authorized_keys :=
                  Some (text, match authorized_keys st with
                              | Some (_, mode) => mode
                              | None => 420%N
                              end) |}
    | None => st
    end).

(** [chmod mode "$AUTHORIZED_KEYS"] *)
Definition chmod_authorized_keys (mode : N) : sh unit :=
  on_files (fun st =>
    match authorized_keys st with
    | Some (text, _) =>
        if read_only st then st
        else {| read_only := read_only st;
                sshd_config := sshd_config st;
                root_ssh := root_ssh st;
                authorized_keys := Some (text, mode) |}
    | None => st
    end).

(** [... | grep -qxF "$pattern"]: some whole line of the input is the
    pattern. *)
Definition grep_qxF (pattern input : string) : bool :=
  existsb (String.eqb pattern) (text_lines input).

(** [while IFS= read -r x; do body; done] over the lines of its input;
    [read] fails on a last line that no newline ends. *)
Fixpoint while_read (x : var) (lines : list string) (body : sh unit)
  : sh unit :=
  match lines with
  | [] => sh_ret tt
  | l :: rest => (assign x l ;> body ;> while_read x rest body)%sh
  end.

(** [producer | consumer]: the consumer of a pipeline runs in a
    subshell.  It starts from a copy of the variables, and whatever it
    assigns, and its [exit], end with it; what it did to files stays. *)
Definition pipe_into (consumer : sh unit) : sh unit :=
  fun s => match consumer s with
           | Next _ s' | Exit _ s' => Next tt {| env := env s;
                                                 files := files s' |}
           end.

Definition complete_lines (input : string) : list string :=
  removelast (split LF input).

(** The script, cut at its own comment lines. *)

(** [KEYS=...], [REMOVE_EXISTING=...], [AUTHORIZED_KEYS=...]

    The source does not pass arguments: it substitutes the key text for
    [$1] in the text of the script, between double quotes, and the
    script itself between single quotes of [sh -c].  The assignment
    below is what that text does when the key text has no single quote,
    double quote, dollar sign, backquote or backslash, which is what
    [shell_safe] asks; for another key text the script that runs is a
    different script. *)
Definition set_parameters (keys : string) (remove_existing : bool)
  : sh unit :=
  (assign KEYS keys ;>
   assign REMOVE_EXISTING (if remove_existing then "true" else "false") ;>
   assign AUTHORIZED_KEYS "/root/.ssh/authorized_keys")%sh.

(** # Ensure the .ssh directory exists *)
Definition ensure_ssh_directory : sh unit :=
  (mkdir_p_root_ssh ;> chmod_root_ssh 448)%sh.

(** # Read the existing authorized_keys file into memory *)
Definition read_existing_keys : sh unit :=
  (present <~ test_f_authorized_keys ;
   if present then
     (text <~ cat_authorized_keys ; assign EXISTING_KEYS text)
   else
     assign EXISTING_KEYS "")%sh.

(** The body of the [while] loop. *)
Definition append_if_missing : sh unit :=
  (e <~ value_of EXISTING_KEYS ;
   line <~ value_of key ;
   if negb (grep_qxF line (echo e)) then
     (u <~ value_of UPDATED_KEYS ;
      assign UPDATED_KEYS (u ++ NL ++ line))
   else sh_ret tt)%sh.

(** # Update the keys in memory *)
Definition update_keys_in_memory : sh unit :=
  (flag <~ value_of REMOVE_EXISTING ;
   if flag =? "true" then
     (k <~ value_of KEYS ; assign UPDATED_KEYS k)
   else
     (e <~ value_of EXISTING_KEYS ; assign UPDATED_KEYS e) ;>
     (k <~ value_of KEYS ;
      pipe_into
        (while_read key (complete_lines (echo k)) append_if_missing)))%sh.

(** # Compare the updated keys with the existing keys *)
Definition compare_and_write : sh unit :=
  (u <~ value_of UPDATED_KEYS ;
   e <~ value_of EXISTING_KEYS ;
   if u =? e then exit 0
   else
     (write_authorized_keys (echo u) ;>
      chmod_authorized_keys 384 ;>
      exit 1))%sh.

(** The last line, [exit 2], comes after an [if] whose two branches
    both [exit]. *)
Definition keys_script (keys : string) (remove_existing : bool) : sh unit :=
  (set_parameters keys remove_existing ;>
   ensure_ssh_directory ;>
   read_existing_keys ;>
   update_keys_in_memory ;>
   compare_and_write ;>
   exit 2)%sh.

Definition run_keys_script (keys : string) (remove_existing : bool)
    (st : container_state) : CompletedProcess * container_state :=
  match keys_script keys remove_existing
          {| env := fun _ => EmptyString; files := st |} with
  | Exit code s => (completed code "", files s)
  | Next _ s => (completed 0 "", files s)
  end.

(** *** One container as a world for [pct exec]

    The three commands above have the semantics just given; [other] is
    whatever the container does for the package and service commands. *)
Definition container_exec
    (other : command -> container_state -> CompletedProcess * container_state)
    (v : string) (c : command) (st : container_state)
  : CompletedProcess * container_state :=
  match c with
  | GrepPasswordAuthentication => (grep_probe st, st)
  | SedPasswordAuthentication status => sed_in_place status st
  | KeysScript keys remove_existing => run_keys_script keys remove_existing st
  | _ => other c st
  end.

(** *** What the rewrite is meant to do, in the words of the contract *)

(** The language of a [regex]. *)
Inductive matches : regex -> string -> Prop :=
| matches_eps : matches Eps EmptyString
| matches_chr p c : p c = true -> matches (Chr p) (String c EmptyString)
| matches_seq r1 r2 m1 m2 :
    matches r1 m1 -> matches r2 m2 -> matches (Seq r1 r2) (m1 ++ m2)
| matches_opt_none r : matches (Opt r) EmptyString
| matches_opt_some r m : matches r m -> matches (Opt r) m
| matches_star p m : all_chars p m = true -> matches (StarChr p) m.

(** The lines that the rewrite is about: the keyword at the start of the
    line, or right after one [#], then a blank, then anything.  This is
    narrower than every line that mentions the directive: a comment
    with a blank between the [#] and the keyword, or an indented line,
    is not one of them. *)
Definition directive_line (line : string) : Prop :=
  exists sep value,
    posix_space sep = true
    /\ (line = "PasswordAuthentication" ++ String sep value
        \/ line = "#PasswordAuthentication" ++ String sep value).

(** A desired value that stands for itself inside the [sed] command:
    none of [&], backslash, [|], the single quote and the newline. *)
Definition sed_safe (status : string) : bool :=
  all_chars (fun c => negb (existsb (Ascii.eqb c)
                              ["&"; "\"; "|"; "'"; LF]%char)) status.

(** A line of text: no newline inside. *)
Definition no_newline (l : string) : Prop :=
  all_chars (fun c => negb (Ascii.eqb c LF)) l = true.

(** A text whose only line terminator is the newline: none of the other
    characters at which Python cuts lines. *)
Definition plain_text (text : string) : Prop :=
  all_chars (fun c => negb (is_linebreak c) || Ascii.eqb c LF) text = true.

Definition plain_line (l : string) : Prop :=
  all_chars (fun c => negb (is_linebreak c)) l = true.

(** The result tuples of [set_ssh_password_authentication]. *)
Definition already_set : bool * string :=
  (false, "Already set to the desired status.").

Definition not_configured : bool * string :=
  (true, "SSH not installed or not configured.").

(** The result tuples of [add_ssh_public_keys] after the script ran. *)
Definition keys_unchanged : bool * string :=
  (false, "No changes were made to container.").

Definition keys_changed : bool * string :=
  (true, "SSH keys successfully added to container.").

Definition keys_failed (detail : string) : bool * string :=
  (true, "Failed to add SSH keys to container: " ++ detail).

(** Where a run of the shell monad ends. *)
Definition final {A} (r : step A) : shell :=
  match r with
  | Next _ s | Exit _ s => s
  end.

(** *** Sample containers for the closed statements *)

(** Package and service commands that succeed silently and leave the
    modelled files alone. *)
Definition quiet
  : command -> container_state -> CompletedProcess * container_state :=
  fun _ st => (completed 0 "", st).

Definition box (id : string) : container :=
  {| vmid := "101"; running := true; version := Some [("id", id)] |}.

Definition with_config (text : string) : container_state :=
  {| read_only := false;
     sshd_config := Some text;
     root_ssh := None;
     authorized_keys := None |}.

Definition with_keys (text : string) : container_state :=
  {| read_only := false;
     sshd_config := None;
     root_ssh := Some 448%N;
     authorized_keys := Some (text, 384%N) |}.

(** A container on which nothing can be written and [/root/.ssh] is
    not there. *)
Definition sealed : container_state :=
  {| read_only := true;
     sshd_config := None;
     root_ssh := None;
     authorized_keys := None |}.

Definition key_A : string := "ssh-ed25519 AAAAC3NzaC1lZDI1NTE5AAAAIA alice".
Definition key_B : string := "ssh-ed25519 AAAAC3NzaC1lZDI1NTE5AAAAIB bob".
Definition key_C : string := "ssh-ed25519 AAAAC3NzaC1lZDI1NTE5AAAAIC carol".

Definition keys_pub (content : string) : string -> option string :=
  fun path => if path =? "keys.pub" then Some content else None.

(** The container after [mkdir -p /root/.ssh; chmod 700 /root/.ssh]. *)
Definition ssh_directory_ensured (st : container_state) : container_state :=
  files (final (ensure_ssh_directory {| env := fun _ => ""; files := st |})).

(** The value that the script reads into [EXISTING_KEYS]. *)
Definition existing_keys (st : container_state) : string :=
  match authorized_keys st with
  | Some (text, _) => drop_trailing_newlines text
  | None => ""
  end.

(** *** The report of a full run *)

(** Name, vmid and run state of every container, in order: what
    [get_lxc_containers] found and [main] never changes. *)
Definition roster (containers : dict container)
  : list (string * string * bool) :=
  map (fun item => (fst item, vmid (snd item), running (snd item)))
      containers.




(** The progress lines of one loop over the fleet: one per container,
    in order, numbered from [i + 1].  A stopped container has the
    not-running message.  On a running container the stage was
    attempted, as [attempt] says, and the line does not say that the
    container is not running. *)
Inductive stage_report
    (attempt : string -> container -> option string -> Prop) (total : nat)
  : nat -> dict container -> list output -> Prop :=
| report_end i : stage_report attempt total i [] []
| report_skipped i name data rest bars :
    running data = false ->
    stage_report attempt total (S i) rest bars ->
    stage_report attempt total i ((name, data) :: rest)
      (ProgressBar (i + 1) total (Some (not_running_message name data))
         name :: bars)
| report_attempted i name data rest bars message :
    running data = true ->
    attempt name data message ->
    message <> Some (not_running_message name data) ->
    stage_report attempt total (S i) rest bars ->
    stage_report attempt total i ((name, data) :: rest)
      (ProgressBar (i + 1) total message name :: bars).


(** A command sent to a container of the fleet that is running. *)
Definition targets_running (fleet : list (string * string * bool))
    (entry : string * command) : Prop :=
  exists name, In (name, fst entry, true) fleet.




(** An oracle that prints a fixed os-release text and fails every other
    command. *)
Definition prints_os_release (text : string)
  : string -> command -> unit -> CompletedProcess * unit :=
  fun _ c w => match c with
               | CatOsRelease => (completed 0 text, w)
               | _ => (completed 1 "", w)
               end.

(** A container with [sshd] on its path whose service is not up. *)
Definition service_down
  : command -> container_state -> CompletedProcess * container_state :=
  fun c st => match c with
              | RcServiceCheck | SystemctlCheck => (completed 1 "", st)
              | _ => (completed 0 "", st)
              end.

(** A container without [sshd]. *)
Definition no_sshd
  : command -> container_state -> CompletedProcess * container_state :=
  fun c st => match c with
              | CommandVSshd => (completed 1 "", st)
              | _ => (completed 0 "", st)
              end.

Definition sealed_with_config (text : string) : container_state :=
  {| read_only := true;
     sshd_config := Some text;
     root_ssh := None;
     authorized_keys := None |}.


(** Containers as [get_lxc_containers] lists them. *)
Definition listed (v : string) (is_running : bool) : container :=
  {| vmid := v; running := is_running; version := None |}.


(** ** The rest of the script *)

(** [s.split()]: the words of [s], cut at runs of whitespace. *)
Fixpoint fields (s : string) : list string :=
  match s with
  | EmptyString => []
  | String c t =>
      if isspace c then fields t
      else match t with
           | EmptyString => [String c EmptyString]
           | String d _ =>
               if isspace d then String c EmptyString :: fields t
               else match fields t with
                    | h :: r => String c h :: r
                    | [] => [String c EmptyString]
                    end
           end
  end.

(** [sep.join(parts)] *)
Fixpoint join (sep : string) (parts : list string) : string :=
  match parts with
  | [] => EmptyString
  | [p] => p
  | p :: r => p ++ sep ++ join sep r
  end.

(** One turn of the loop of [get_lxc_containers]: the line is cut into
    words, glued with single spaces and cut again; the third word is
    the name, the first the vmid, the second the status. *)
Definition add_listed_container (line : string) (containers : dict container)
  : res (dict container) :=
  match fields (join " " (fields line)) with
  | f0 :: f1 :: f2 :: _ =>
      Ok (dict_set f2 {| vmid := f0;
                         running := f1 =? "running";
                         version := None |} containers)
  | _ => Raise IndexError
  end.

Fixpoint add_listed_containers (lines : list string)
    (containers : dict container) : res (dict container) :=
  match lines with
  | [] => Ok containers
  | line :: rest =>
      match add_listed_container line containers with
      | Ok containers' => add_listed_containers rest containers'
      | Raise e => Raise e
      end
  end.

(** The body of [get_lxc_containers] on the output of [pct list]: the
    first line is the column header. *)
Definition parse_pct_list (stdout : string) : res (dict container) :=
  add_listed_containers (tl (splitlines stdout)) [].

(** [get_lxc_containers]; [pct_list] is the host command [pct list]. *)
Definition get_lxc_containers {World}
    (pct_list : World -> CompletedProcess * World)
  : M World (dict container) :=
  fun h => let (result, w) := pct_list (world h) in
           (parse_pct_list (stdout result),
            {| world := w; trace := trace h; console := console h |}).

(** The two kinds of cell of the progress bar: the full block and the
    dash. *)
Inductive cell : Type := Block | Dash.

(** Lines 21 and 22 of [print_progress_bar]: [filled_len] and [bar],
    for non-negative arguments. *)
Definition filled_len (iteration total length : nat) : nat :=
  (length * iteration) / total.

Definition bar (iteration total length : nat) : list cell :=
  (repeat Block (filled_len iteration total length)
   ++ repeat Dash (length - filled_len iteration total length))%list.

(** *** What a computation keeps true of the two logs

    [safe P Q m R]: from a host whose trace satisfies [P] and whose
    console satisfies [Q] entry by entry, [m] ends, normally or with an
    exception, in such a host again, and a normal result satisfies
    [R]. *)
Definition safe {World A} (P : string * command -> Prop)
    (Q : output -> Prop) (m : M World A) (R : A -> Prop) : Prop :=
  forall h,
    Forall P (trace h) -> Forall Q (console h) ->
    Forall P (trace (snd (m h)))
    /\ Forall Q (console (snd (m h)))
    /\ (forall a, fst (m h) = Ok a -> R a).

(** Commands other than the two that carry a value chosen by the
    caller. *)
Definition fixed_command (c : command) : Prop :=
  match c with
  | SedPasswordAuthentication _ | KeysScript _ _ => False
  | _ => True
  end.

(** What [main] may send to the container [v]: [v] is a running
    container of the fleet, the directive value is [no], and a key
    script carries the stripped, non-empty text of [keys.pub] in
    replace mode. *)
Definition sent_by_main (fleet : list (string * string * bool))
    (host_file : string -> option string) (entry : string * command)
  : Prop :=
  targets_running fleet entry
  /\ match snd entry with
     | SedPasswordAuthentication status => status = "no"
     | KeysScript keys remove_existing =>
         remove_existing = true
         /\ keys <> ""
         /\ exists content,
              host_file "keys.pub" = Some content /\ keys = strip content
     | _ => True
     end.

(** A progress line of a fleet of [total] containers: numbered from 1
    to [total]. *)
Definition progress_in_range (total : nat) (o : output) : Prop :=
  match o with
  | ProgressBar iteration total' _ _ =>
      total' = total /\ 1 <= iteration <= total
  | Print _ => True
  end.

(** A word: not empty and without whitespace. *)
Definition word (w : string) : Prop :=
  w <> "" /\ all_chars (fun c => negb (isspace c)) w = true.

(** A gap between two columns: one or more spaces. *)
Definition gap (g : string) : Prop :=
  g <> "" /\ all_chars (Ascii.eqb " ") g = true.

(** One row of [pct list]: vmid, status and name in columns. *)
Definition pct_row (g1 g2 : string) (record : string * string * string)
  : string :=
  let '(v, status, name) := record in v ++ g1 ++ status ++ g2 ++ name.

Definition listed_as (record : string * string * string)
  : string * container :=
  let '(v, status, name) := record in
  (name, {| vmid := v; running := status =? "running"; version := None |}).

(** The field that a line of os-release contributes: the lowered text
    before the first equals sign, and the text between the first and
    the second without its double quotes. *)
Definition os_release_field (line : string) : string * string :=
  (lower (nth 0 (split "=" line) ""),
   remove_char DQUOTE (nth 1 (split "=" line) "")).

(** The last binding of [k] in a list of fields. *)
Definition last_field (k : string) (fs : list (string * string))
  : option string :=
  option_map snd (find (fun f => fst f =? k) (rev fs)).

(** A record of [pct list] whose three columns are words. *)
Definition well_formed_record (record : string * string * string) : Prop :=
  let '(v, status, name) := record in word v /\ word status /\ word name.

(** Package and service commands that leave the modelled files as they
    are. *)
Definition leaves_files
    (other : command -> container_state -> CompletedProcess * container_state)
  : Prop :=
  forall c st, snd (other c st) = st.

(** The result tuple of a rewrite by [set_ssh_password_authentication]. *)
Definition directive_set (status : string) : bool * string :=
  (true, "PasswordAuthentication set to " ++ status).

(** * Properties *)

(** ** Text lemmas *)

Lemma split_nonempty (sep : ascii) (s : string) : split sep s <> [].
Proof.
  destruct s as [|c t]; simpl; [discriminate|].
  destruct (Ascii.eqb c sep); [discriminate|].
  destruct (split sep t); discriminate.
Qed.

Lemma split_shape (s : string) :
  if has_equals s
  then exists k v r, split "=" s = k :: v :: r
  else exists k, split "=" s = [k].
Proof.
  unfold has_equals, chars.
  induction s as [|c t IH]; cbn [split existsb list_ascii_of_string].
  - now exists EmptyString.
  - rewrite (Ascii.eqb_sym "="%char c).
    destruct (Ascii.eqb c "=") eqn:E; cbn [orb].
    + destruct (split "=" t) as [|v r] eqn:S.
      * now apply split_nonempty in S.
      * now exists EmptyString, v, r.
    + destruct (existsb (Ascii.eqb "=") (list_ascii_of_string t)).
      * destruct IH as (k & v & r & ->). now exists (String c k), v, r.
      * destruct IH as (k & ->). now exists (String c k).
Qed.

Lemma dict_of_items_split (lines : list string) :
  forall d,
    if forallb has_equals lines
    then exists d', dict_of_items (map (split "=") lines) d = Ok d'
    else dict_of_items (map (split "=") lines) d = Raise IndexError.
Proof.
  induction lines as [|l ls IH]; intros d; simpl.
  - now exists d.
  - pose proof (split_shape l) as S.
    destruct (has_equals l); simpl.
    + destruct S as (k & v & r & ->). apply IH.
    + destruct S as (k & ->). reflexivity.
Qed.

Lemma lstrip_all_space (s : string) :
  all_chars isspace s = true -> lstrip s = EmptyString.
Proof.
  unfold all_chars, chars.
  induction s as [|c t IH]; cbn [lstrip forallb list_ascii_of_string].
  - reflexivity.
  - intros H. apply andb_prop in H as [Hc Ht]. rewrite Hc. now apply IH.
Qed.

Lemma strip_all_space (s : string) :
  all_chars isspace s = true -> strip s = EmptyString.
Proof.
  intros H. unfold strip. now rewrite lstrip_all_space.
Qed.

Lemma rstrip_empty (s : string) :
  rstrip s = EmptyString -> all_chars isspace s = true.
Proof.
  unfold all_chars, chars.
  induction s as [|c t IH]; cbn [rstrip forallb list_ascii_of_string].
  - reflexivity.
  - destruct (rstrip t); [|discriminate].
    destruct (isspace c); [|discriminate].
    intros _. now rewrite IH.
Qed.

Lemma lstrip_head (s : string) (c : ascii) (t : string) :
  lstrip s = String c t -> isspace c = false.
Proof.
  induction s as [|d u IH]; cbn [lstrip]; [discriminate|].
  destruct (isspace d) eqn:E; [exact IH|].
  intros [= <- _]. exact E.
Qed.

Lemma lstrip_empty (s : string) :
  lstrip s = EmptyString -> all_chars isspace s = true.
Proof.
  unfold all_chars, chars.
  induction s as [|c t IH]; cbn [lstrip forallb list_ascii_of_string].
  - reflexivity.
  - destruct (isspace c); [|discriminate]. exact IH.
Qed.

(** Python's [strip] leaves nothing exactly when the text is blank. *)
Lemma strip_empty_iff (s : string) :
  strip s = EmptyString <-> all_chars isspace s = true.
Proof.
  split; [|apply strip_all_space].
  unfold strip. intros H.
  destruct (lstrip s) as [|c t] eqn:L.
  - now apply lstrip_empty.
  - apply lstrip_head in L. apply rstrip_empty in H.
    unfold all_chars, chars in H. cbn in H.
    rewrite L in H. discriminate.
Qed.

(** ** The host-side functions *)

Section HostFacts.

Variable World : Type.
Variable pct_exec : string -> command -> World -> CompletedProcess * World.
Variable host_file : string -> option string.

Lemma subprocess_run_eq (v : string) (c : command) (h : host World) :
  subprocess_run pct_exec v c h
  = (Ok (fst (pct_exec v c (world h))),
     {| world := snd (pct_exec v c (world h));
        trace := (trace h ++ [(v, c)])%list;
        console := console h |}).
Proof.
  unfold subprocess_run. now destruct (pct_exec v c (world h)).
Qed.

(** Closes a goal on the trace of [install_openssh] once [id] is one of
    the six known names: the choice evaluates to [cmd], which is run. *)
Ltac install_issued cmd :=
  match goal with
  | |- context [install_command_for ?i] =>
      change (install_command_for i) with (Some cmd)
  end;
  cbv beta iota;
  rewrite subprocess_run_eq;
  destruct (negb _); cbn [snd trace]; now rewrite <- app_assoc.

(** C7, as amended: [get_linux_version] returns a dictionary exactly
    when every line of the os-release output has an equals sign; one
    line without it is not skipped, it ends the whole parse with
    [IndexError]. *)
Theorem get_linux_version_needs_equals (v : string) (h : host World) :
  let out := stdout (fst (pct_exec v CatOsRelease (world h))) in
  if forallb has_equals (splitlines out)
  then exists d, fst (get_linux_version pct_exec v h) = Ok d
  else fst (get_linux_version pct_exec v h) = Raise IndexError.
Proof.
  cbv zeta. unfold get_linux_version, bind, lift.
  rewrite subprocess_run_eq. cbn [fst snd].
  unfold parse_os_release.
  apply (dict_of_items_split _ []).
Qed.

(** C8: a missing key file and a blank key file both end
    [add_ssh_public_keys] with their own message, and the host state is
    the one before the call: no command has been sent to the container. *)
Theorem keys_file_missing_or_blank (c : container) (key_file : string)
    (remove_existing : bool) (h : host World) :
  (host_file key_file = None ->
   add_ssh_public_keys pct_exec host_file c key_file remove_existing h
   = (Ok (false, "Key file '" ++ key_file ++ "' not found."), h))
  /\ (forall content,
        host_file key_file = Some content ->
        all_chars isspace content = true ->
        add_ssh_public_keys pct_exec host_file c key_file remove_existing h
        = (Ok (false, "Key file is empty."), h)).
Proof.
  unfold add_ssh_public_keys. split.
  - intros ->. reflexivity.
  - intros content -> Hblank. now rewrite (strip_all_space _ Hblank).
Qed.

(** C10: after a probe that finds the directive unsatisfied, the call
    reports a change whatever [pct_exec] answers to the [sed] command
    and to the restart: both are sent and neither answer is read. *)
Theorem password_auth_change_reported_blindly (c : container)
    (status id : string) (h : host World) :
  version_id c = Ok id ->
  let probe := fst (pct_exec (vmid c) GrepPasswordAuthentication (world h)) in
  returncode probe = 0%Z ->
  existsb (fun line => startswith line ("PasswordAuthentication " ++ status))
          (splitlines (stdout probe)) = false ->
  let r := set_ssh_password_authentication pct_exec c status h in
  fst r = Ok (true, "PasswordAuthentication set to " ++ status)
  /\ trace (snd r)
     = (trace h ++ [(vmid c, GrepPasswordAuthentication);
                    (vmid c, SedPasswordAuthentication status);
                    (vmid c, if id =? "alpine" then ServiceSshRestart
                             else SystemctlRestartSsh)])%list.
Proof.
  intros Hid probe Hrc Hline r. subst r probe.
  unfold set_ssh_password_authentication, bind, lift, ret.
  rewrite subprocess_run_eq. rewrite Hrc, Hline. cbn [Z.eqb negb].
  rewrite subprocess_run_eq. rewrite Hid.
  rewrite subprocess_run_eq. cbn [fst snd trace].
  split; [reflexivity|].
  now rewrite <- !app_assoc.
Qed.

(** C6, as amended: when the probe for [sshd] fails, the value stored
    under [id] picks the install command by exact comparison, and any
    value outside the six names ends the call as unsupported with the
    probe as the only command sent. *)
Theorem install_dispatch_by_id (c : container) (id : string)
    (h : host World) :
  version_id c = Ok id ->
  returncode (fst (pct_exec (vmid c) CommandVSshd (world h))) <> 0%Z ->
  let r := install_openssh pct_exec c h in
  (id = "alpine" ->
   trace (snd r)
   = (trace h ++ [(vmid c, CommandVSshd); (vmid c, ApkInstall)])%list)
  /\ (id = "debian" \/ id = "ubuntu" ->
      trace (snd r)
      = (trace h ++ [(vmid c, CommandVSshd); (vmid c, AptInstall)])%list)
  /\ (id = "centos" \/ id = "rhel" \/ id = "fedora" ->
      trace (snd r)
      = (trace h ++ [(vmid c, CommandVSshd); (vmid c, YumInstall)])%list)
  /\ (~ In id ["alpine"; "debian"; "ubuntu"; "centos"; "rhel"; "fedora"] ->
      fst r = Ok (false, "Unsupported Linux distribution, " ++ id ++ ".")
      /\ trace (snd r) = (trace h ++ [(vmid c, CommandVSshd)])%list).
Proof.
  intros Hid Hrc r. subst r.
  unfold install_openssh, bind, lift, ret.
  rewrite subprocess_run_eq.
  apply Z.eqb_neq in Hrc. rewrite Hrc, Hid. cbn [fst snd].
  split; [|split; [|split]].
  - intros ->. install_issued ApkInstall.
  - intros [-> | ->]; install_issued AptInstall.
  - intros [-> | [-> | ->]]; install_issued YumInstall.
  - intros Hnot. cbn [In] in Hnot.
    assert (install_command_for id = None) as ->; [|now split].
    unfold install_command_for. cbn [existsb].
    repeat match goal with
           | |- context [id =? ?known] =>
               let E := fresh "E" in
               destruct (id =? known) eqn:E;
               [apply String.eqb_eq in E; subst; exfalso; apply Hnot;
                auto 10|]
           end.
    reflexivity.
Qed.

End HostFacts.

(** ** Strings *)

Lemma append_nil_r (s : string) : s ++ "" = s.
Proof. induction s; simpl; congruence. Qed.

Lemma append_assoc (a b c : string) : (a ++ b) ++ c = a ++ (b ++ c).
Proof. induction a; simpl; congruence. Qed.

Lemma length_append (a b : string) :
  String.length (a ++ b) = String.length a + String.length b.
Proof. induction a; simpl; congruence. Qed.

Lemma substring_all (s : string) : substring 0 (String.length s) s = s.
Proof. induction s; simpl; congruence. Qed.

Lemma length_zero (s : string) : String.length s = 0 -> s = "".
Proof. destruct s; [reflexivity|discriminate]. Qed.

Lemma prefix_append (p s : string) :
  String.prefix p s = true <-> exists t, s = p ++ t.
Proof.
  revert s. induction p as [|c p IH]; intros s; simpl.
  - destruct s; split; eauto.
  - destruct s as [|d s]; simpl.
    + split; [discriminate|]. intros (t & H). discriminate.
    + destruct (ascii_dec c d) as [<-|N].
      * split.
        -- intros H. apply IH in H as (t & ->). now exists t.
        -- intros (t & [= ->]). apply IH. now exists t.
      * split; [discriminate|]. intros (t & [= E _]). now elim N.
Qed.

(** ** The [sed] rewrite *)

Lemma star_rests_spec (p : ascii -> bool) (s t : string) :
  In t (star_rests p s) <-> exists m, s = m ++ t /\ all_chars p m = true.
Proof.
  unfold all_chars, chars.
  induction s as [|c u IH]; cbn [star_rests].
  - split.
    + intros [<- | []]. now exists "".
    + intros (m & H & _). destruct m; [|discriminate]. now left.
  - destruct (p c) eqn:Pc.
    + rewrite in_app_iff, IH. split.
      * intros [(m & -> & Hm) | [<- | []]].
        -- exists (String c m). cbn. now rewrite Pc.
        -- now exists "".
      * intros (m & H & Hm). destruct m as [|d m].
        -- right. left. now rewrite H.
        -- left. injection H as <- ->. cbn in Hm.
           apply andb_prop in Hm as [_ Hm]. now exists m.
    + split.
      * intros [<- | []]. now exists "".
      * intros (m & H & Hm). destruct m as [|d m].
        -- left. now rewrite H.
        -- injection H as <- ->. cbn in Hm. now rewrite Pc in Hm.
Qed.

Lemma rests_spec (r : regex) :
  forall s t, In t (rests r s) <-> exists m, s = m ++ t /\ matches r m.
Proof.
  induction r as [|p|r1 IH1 r2 IH2|r1 IH1|p]; intros s t; cbn [rests].
  - split.
    + intros [<- | []]. exists "". split; [reflexivity|constructor].
    + intros (m & -> & Hm). inversion Hm. now left.
  - split.
    + destruct s as [|c u]; [intros []|].
      destruct (p c) eqn:Pc; [|intros []].
      intros [<- | []]. exists (String c ""). split; [reflexivity|].
      now constructor.
    + intros (m & -> & Hm). inversion Hm as [|? c Pc| | | |]; subst.
      cbn. rewrite Pc. now left.
  - rewrite in_flat_map. split.
    + intros (u & Hu & Ht).
      apply IH1 in Hu as (m1 & -> & H1). apply IH2 in Ht as (m2 & -> & H2).
      exists (m1 ++ m2). split; [now rewrite append_assoc|].
      now constructor.
    + intros (m & -> & Hm). inversion Hm as [| |? ? m1 m2 H1 H2| | |]; subst.
      exists (m2 ++ t). split.
      * apply IH1. exists m1. split; [apply append_assoc|assumption].
      * apply IH2. now exists m2.
  - rewrite in_app_iff, IH1. split.
    + intros [(m & -> & Hm) | [<- | []]].
      * exists m. split; [reflexivity|]. now constructor.
      * exists "". split; [reflexivity|]. constructor.
    + intros (m & -> & Hm). inversion Hm; subst.
      * right. now left.
      * left. now exists m.
  - rewrite star_rests_spec. split.
    + intros (m & -> & Hm). exists m. split; [reflexivity|]. now constructor.
    + intros (m & -> & Hm). inversion Hm; subst. now exists m.
Qed.

Lemma matches_lit (s m : string) : matches (lit s) m <-> m = s.
Proof.
  revert m. induction s as [|c s IH]; intros m; cbn [lit].
  - split.
    + intros H. now inversion H.
    + intros ->. constructor.
  - split.
    + intros H. inversion H as [| |? ? m1 m2 H1 H2| | |]; subst.
      inversion H1 as [|? d Hd| | | |]; subst.
      apply IH in H2 as ->. apply Ascii.eqb_eq in Hd as ->. reflexivity.
    + intros ->. change (String c s) with (String c "" ++ s).
      constructor; [|now apply IH].
      constructor. apply Ascii.eqb_refl.
Qed.

Lemma all_chars_any (m : string) : all_chars any_char m = true.
Proof. unfold all_chars, chars. induction m; cbn; auto. Qed.

Lemma matches_keyword_line (keyword m : string) :
  matches (Seq (Opt (Chr (Ascii.eqb "#")))
               (Seq (lit keyword) (Seq (Chr posix_space) (StarChr any_char))))
          m
  <-> exists sep value,
        posix_space sep = true
        /\ (m = keyword ++ String sep value
            \/ m = String "#" (keyword ++ String sep value)).
Proof.
  split.
  - intros H.
    inversion H as [| |? ? m1 m2 H1 H2| | |]; subst.
    inversion H2 as [| |? ? m3 m4 H3 H4| | |]; subst.
    apply matches_lit in H3 as ->.
    inversion H4 as [| |? ? m5 m6 H5 H6| | |]; subst.
    inversion H5 as [|? sep Hsep| | | |]; subst.
    exists sep, m6. split; [assumption|].
    inversion H1 as [| | |?|? ? H7|]; subst.
    + now left.
    + inversion H7 as [|? d Hd| | | |]; subst.
      apply Ascii.eqb_eq in Hd as <-. now right.
  - intros (sep & value & Hsep & [-> | ->]).
    + change (keyword ++ String sep value)
        with ("" ++ keyword ++ String sep "" ++ value).
      repeat constructor; try assumption.
      * now apply matches_lit.
      * apply all_chars_any.
    + change (String "#" (keyword ++ String sep value))
        with ("#" ++ keyword ++ String sep "" ++ value).
      repeat constructor; try assumption.
      * now apply matches_lit.
      * apply all_chars_any.
Qed.

(** The pattern of the command describes the directive lines. *)
Lemma sed_pattern_directive (m : string) :
  matches sed_pattern m <-> directive_line m.
Proof. apply (matches_keyword_line "PasswordAuthentication"). Qed.

Lemma directive_line_append (m t : string) :
  directive_line m -> directive_line (m ++ t).
Proof.
  intros (sep & value & Hsep & [-> | ->]); exists sep, (value ++ t);
    (split; [assumption|]); [left|right]; reflexivity.
Qed.

Lemma shortest_none (ts : list string) : shortest ts = None -> ts = [].
Proof.
  destruct ts as [|t r]; [reflexivity|]. cbn.
  destruct (shortest r); [|discriminate].
  now destruct (_ <=? _)%nat.
Qed.

Lemma shortest_least (ts : list string) (u : string) :
  shortest ts = Some u ->
  forall t, In t ts -> String.length u <= String.length t.
Proof.
  revert u. induction ts as [|a r IH]; intros u; cbn [shortest].
  - discriminate.
  - destruct (shortest r) as [v|] eqn:S.
    + specialize (IH v eq_refl).
      destruct (String.length a <=? String.length v)%nat eqn:L;
        intros [= <-] t [<- | Ht].
      * lia.
      * apply Nat.leb_le in L. specialize (IH t Ht). lia.
      * apply Nat.leb_gt in L. lia.
      * now apply IH.
    + apply shortest_none in S as ->. intros [= <-] t [<- | []]. lia.
Qed.

Lemma shortest_some (ts : list string) (t : string) :
  In t ts -> exists u, shortest ts = Some u.
Proof.
  destruct ts as [|a r]; [intros []|]. intros _. cbn.
  destruct (shortest r); [|eauto].
  destruct (_ <=? _)%nat; eauto.
Qed.

Lemma expand_safe (status whole group1 : string) :
  sed_safe status = true -> expand status whole group1 = status.
Proof.
  unfold sed_safe, all_chars, chars.
  induction status as [|c s IH]; cbn [expand forallb list_ascii_of_string].
  - reflexivity.
  - intros H. apply andb_prop in H as [Hc Hs].
    cbn [existsb] in Hc. apply negb_true_iff in Hc.
    apply orb_false_elim in Hc as [H1 Hc].
    apply orb_false_elim in Hc as [H2 _].
    rewrite H1, H2. now rewrite IH.
Qed.

Lemma sed_line_directive (status line : string) :
  sed_safe status = true ->
  directive_line line ->
  sed_line status line = "PasswordAuthentication " ++ status.
Proof.
  intros Hsafe Hline. unfold sed_line, substitute.
  assert (Hin : In "" (rests sed_pattern line)).
  { apply rests_spec. exists line. split; [now rewrite append_nil_r|].
    now apply sed_pattern_directive. }
  destruct (shortest_some _ _ Hin) as (u & Hu). rewrite Hu.
  pose proof (shortest_least _ _ Hu _ Hin) as Hlen. cbn in Hlen.
  assert (u = "") as -> by (apply length_zero; lia).
  unfold sed_replacement. cbn [append expand Ascii.eqb Bool.eqb].
  rewrite (expand_safe _ _ _ Hsafe). now rewrite append_nil_r.
Qed.

Lemma sed_line_other (status line : string) :
  ~ directive_line line -> sed_line status line = line.
Proof.
  intros Hline. unfold sed_line, substitute.
  destruct (shortest (rests sed_pattern line)) as [u|] eqn:Hu; [|reflexivity].
  exfalso. apply Hline.
  assert (Hin : In u (rests sed_pattern line)).
  { clear Hline. revert u Hu.
    induction (rests sed_pattern line) as [|a r IH]; intros u; cbn.
    - discriminate.
    - destruct (shortest r) as [v|].
      + destruct (_ <=? _)%nat; intros [= <-]; auto.
      + intros [= <-]. auto. }
  apply rests_spec in Hin as (m & -> & Hm).
  apply directive_line_append. now apply sed_pattern_directive.
Qed.

Lemma split_no_newline (s : string) : Forall no_newline (split LF s).
Proof.
  unfold no_newline, all_chars, chars.
  induction s as [|c t IH]; cbn [split].
  - now repeat constructor.
  - destruct (Ascii.eqb c LF) eqn:E.
    + now constructor.
    + pose proof (split_nonempty LF t) as Hne.
      destruct (split LF t) as [|h r]; [now elim Hne|].
      inversion IH as [|? ? Hh Hr]; subst.
      constructor; [|assumption].
      cbn [forallb list_ascii_of_string]. now rewrite E.
Qed.

Lemma split_one_line (l : string) : no_newline l -> split LF l = [l].
Proof.
  unfold no_newline, all_chars, chars.
  induction l as [|c t IH]; cbn [split forallb list_ascii_of_string].
  - reflexivity.
  - intros H. apply andb_prop in H as [Hc Ht].
    apply negb_true_iff in Hc. rewrite Hc. now rewrite IH.
Qed.

Lemma split_first_line (l rest : string) :
  no_newline l -> split LF (l ++ NL ++ rest) = l :: split LF rest.
Proof.
  unfold no_newline, all_chars, chars.
  induction l as [|c t IH];
    cbn [split forallb list_ascii_of_string append NL].
  - intros _. now rewrite Ascii.eqb_refl.
  - intros H. apply andb_prop in H as [Hc Ht].
    apply negb_true_iff in Hc. rewrite Hc.
    cbn [append NL] in IH. now rewrite IH.
Qed.

(** Cutting a text into lines undoes gluing lines into a text. *)
Lemma split_join_lines (ls : list string) :
  ls <> [] -> Forall no_newline ls -> split LF (join_lines ls) = ls.
Proof.
  induction ls as [|l r IH]; [congruence|]. intros _ H.
  inversion H as [|? ? Hl Hr]; subst.
  destruct r as [|l2 r].
  - now apply split_one_line.
  - change (join_lines (l :: l2 :: r)) with (l ++ NL ++ join_lines (l2 :: r)).
    rewrite split_first_line by assumption.
    now rewrite IH.
Qed.

Lemma directive_line_desired (status : string) :
  directive_line ("PasswordAuthentication " ++ status).
Proof. exists " "%char, status. split; [reflexivity|now left]. Qed.

Lemma directive_line_decide (line : string) :
  directive_line line \/ ~ directive_line line.
Proof.
  destruct (rests sed_pattern line) as [|t r] eqn:R.
  - right. intros H. apply sed_pattern_directive in H.
    assert (Hin : In "" (rests sed_pattern line)).
    { apply rests_spec. exists line. now rewrite append_nil_r. }
    now rewrite R in Hin.
  - left. assert (Hin : In t (rests sed_pattern line)) by (rewrite R; now left).
    apply rests_spec in Hin as (m & -> & Hm).
    apply directive_line_append. now apply sed_pattern_directive.
Qed.

Lemma sed_safe_no_newline (status : string) :
  sed_safe status = true -> no_newline status.
Proof.
  unfold sed_safe, no_newline, all_chars, chars.
  induction (list_ascii_of_string status) as [|c r IH]; cbn [forallb].
  - reflexivity.
  - intros H. apply andb_prop in H as [Hc Hr]. rewrite (IH Hr).
    cbn [existsb] in Hc. apply negb_true_iff in Hc.
    do 4 (apply orb_false_elim in Hc as [_ Hc]).
    apply orb_false_elim in Hc as [Hc _]. now rewrite Hc.
Qed.

Lemma no_newline_append (a b : string) :
  no_newline a -> no_newline b -> no_newline (a ++ b).
Proof.
  unfold no_newline, all_chars, chars.
  induction a as [|c a IH]; cbn [append forallb list_ascii_of_string].
  - auto.
  - intros H Hb. apply andb_prop in H as [Hc Ha]. rewrite Hc. now apply IH.
Qed.

Lemma sed_line_no_newline (status line : string) :
  sed_safe status = true -> no_newline line ->
  no_newline (sed_line status line).
Proof.
  intros Hsafe Hline.
  destruct (directive_line_decide line) as [D | D].
  - rewrite (sed_line_directive _ _ Hsafe D).
    apply no_newline_append; [reflexivity|now apply sed_safe_no_newline].
  - now rewrite (sed_line_other _ _ D).
Qed.

(** The lines of the file after [sed -i] are the rewritten lines of the
    file before. *)
Lemma sed_text_lines (status text : string) :
  sed_safe status = true ->
  split LF (sed_text status text) = map (sed_line status) (split LF text).
Proof.
  intros Hsafe. unfold sed_text. apply split_join_lines.
  - pose proof (split_nonempty LF text).
    destruct (split LF text); [congruence|discriminate].
  - pose proof (split_no_newline text) as H.
    induction H as [|l r Hl Hr IH]; cbn [map]; constructor.
    + now apply sed_line_no_newline.
    + assumption.
Qed.


(** ** The probe of [set_ssh_password_authentication] *)

Lemma split_plain (text : string) :
  plain_text text -> Forall plain_line (split LF text).
Proof.
  unfold plain_text, plain_line, all_chars, chars.
  induction text as [|c t IH]; cbn [split forallb list_ascii_of_string].
  - now repeat constructor.
  - intros H. apply andb_prop in H as [Hc Ht]. specialize (IH Ht).
    destruct (Ascii.eqb c LF) eqn:E.
    + now constructor.
    + pose proof (split_nonempty LF t) as Hne.
      destruct (split LF t) as [|h r]; [now elim Hne|].
      inversion IH as [|? ? Hh Hr]; subst.
      constructor; [|assumption].
      cbn [forallb list_ascii_of_string].
      rewrite orb_false_r in Hc. now rewrite Hc.
Qed.

Lemma in_removelast {A} (x : A) (l : list A) : In x (removelast l) -> In x l.
Proof.
  induction l as [|a [|b r] IH]; cbn [removelast]; [auto|intros []|].
  intros [<- | H]; [now left|right; now apply IH].
Qed.

Lemma in_text_lines (text line : string) :
  In line (text_lines text) -> In line (split LF text).
Proof.
  unfold text_lines. destruct (last (split LF text) "x"); [|auto].
  apply in_removelast.
Qed.

Lemma text_lines_plain (text : string) :
  plain_text text -> Forall plain_line (text_lines text).
Proof.
  intros H. apply split_plain in H. rewrite Forall_forall in *.
  intros l Hl. apply H. now apply in_text_lines.
Qed.

Lemma splitlines_first_line (l rest : string) :
  plain_line l -> splitlines (l ++ NL ++ rest) = l :: splitlines rest.
Proof.
  unfold plain_line, all_chars, chars.
  induction l as [|c t IH];
    cbn [splitlines forallb list_ascii_of_string append NL].
  - intros _. change (is_linebreak LF) with true. cbv iota.
    destruct rest as [|d u]; [reflexivity|].
    now change (Ascii.eqb LF CR) with false.
  - intros H. apply andb_prop in H as [Hc Ht].
    apply negb_true_iff in Hc. rewrite Hc.
    cbn [append NL] in IH. now rewrite IH.
Qed.

Lemma splitlines_unlines (ls : list string) :
  Forall plain_line ls -> splitlines (unlines ls) = ls.
Proof.
  induction 1 as [|l r Hl Hr IH]; cbn [unlines]; [reflexivity|].
  rewrite splitlines_first_line by assumption. now rewrite IH.
Qed.

Lemma universal_newlines_plain (s : string) :
  plain_text s -> universal_newlines s = s.
Proof.
  unfold plain_text, all_chars, chars.
  induction s as [|c t IH];
    cbn [universal_newlines forallb list_ascii_of_string]; [reflexivity|].
  intros H. apply andb_prop in H as [Hc Ht].
  destruct (Ascii.eqb c CR) eqn:E.
  - apply Ascii.eqb_eq in E. subst c. discriminate.
  - now rewrite IH.
Qed.

Lemma unlines_plain (ls : list string) :
  Forall plain_line ls -> plain_text (unlines ls).
Proof.
  unfold plain_text, plain_line, all_chars, chars.
  induction 1 as [|l r Hl Hr IH]; cbn [unlines]; [reflexivity|].
  induction l as [|c t IHl]; cbn [append forallb list_ascii_of_string NL].
  - exact IH.
  - cbn [forallb list_ascii_of_string] in Hl.
    apply andb_prop in Hl as [Hc Ht].
    rewrite Hc. cbn [orb andb]. now apply IHl.
Qed.

Lemma contains_prefix (needle rest line : string) :
  String.prefix (needle ++ rest) line = true -> contains needle line = true.
Proof.
  intros H. apply prefix_append in H as (t & ->).
  assert (P : String.prefix needle (needle ++ rest ++ t) = true)
    by (apply prefix_append; eauto).
  rewrite append_assoc.
  destruct (needle ++ rest ++ t); cbn [contains]; now rewrite P.
Qed.

(** What Python reads from the probe of a plain configuration text:
    the lines that mention the keyword. *)
Lemma probe_lines (text : string) :
  plain_text text ->
  splitlines (universal_newlines (unlines (grep_lines text)))
  = grep_lines text.
Proof.
  intros H.
  assert (P : Forall plain_line (grep_lines text)).
  { apply text_lines_plain in H. rewrite Forall_forall in *.
    intros l Hl. apply H. unfold grep_lines in Hl.
    now apply filter_In in Hl. }
  rewrite universal_newlines_plain by now apply unlines_plain.
  now apply splitlines_unlines.
Qed.

(** C5, as amended: on a plain configuration text the probe answers
    [already_set] exactly when some line of the file begins with the
    desired directive; a line that continues after it satisfies the
    probe as well. *)
Theorem password_probe_satisfied_by_prefix
    (other : command -> container_state -> CompletedProcess * container_state)
    (c : container) (status : string) (st : container_state)
    (text : string) :
  sshd_config st = Some text ->
  plain_text text ->
  fst (set_ssh_password_authentication (container_exec other) c status
         (start st)) = Ok already_set
  <-> exists line,
        In line (text_lines text)
        /\ startswith line ("PasswordAuthentication " ++ status) = true.
Proof.
  intros Hcfg Hplain.
  unfold set_ssh_password_authentication, bind, lift, ret.
  rewrite subprocess_run_eq.
  cbn [container_exec fst snd world start].
  unfold grep_probe. rewrite Hcfg.
  destruct (grep_lines text) as [|l ls] eqn:G.
  - cbn [completed returncode Z.eqb negb fst]. split; [discriminate|].
    intros (line & Hin & Hpre).
    assert (Hg : In line (grep_lines text)).
    { apply filter_In. split; [assumption|].
      apply (contains_prefix _ (" " ++ status)). exact Hpre. }
    now rewrite G in Hg.
  - cbn [completed returncode stdout Z.eqb negb].
    rewrite <- G. rewrite (probe_lines _ Hplain).
    destruct (existsb _ (grep_lines text)) eqn:E.
    + cbn [fst]. split; [|reflexivity]. intros _.
      apply existsb_exists in E as (line & Hin & Hpre).
      exists line. split; [|assumption].
      now apply filter_In in Hin.
    + split.
      * rewrite subprocess_run_eq.
        destruct (version_id c); [|discriminate].
        rewrite subprocess_run_eq. discriminate.
      * intros (line & Hin & Hpre). exfalso.
        assert (Hg : In line (grep_lines text)).
        { apply filter_In. split; [assumption|].
          apply (contains_prefix _ (" " ++ status)). exact Hpre. }
        assert (T : existsb
                      (fun line0 => startswith line0
                                      ("PasswordAuthentication " ++ status))
                      (grep_lines text) = true)
          by (apply existsb_exists; eauto).
        congruence.
Qed.

(** ** The shell script of [add_ssh_public_keys] *)

Lemma sh_bind_next {A B} (m : sh A) (k : A -> sh B) (s s' : shell) (a : A) :
  m s = Next a s' -> sh_bind m k s = k a s'.
Proof. unfold sh_bind. now intros ->. Qed.

Lemma set_parameters_next (keys : string) (remove_existing : bool)
    (s : shell) :
  exists s',
    set_parameters keys remove_existing s = Next tt s'
    /\ files s' = files s
    /\ env s' KEYS = keys
    /\ env s' REMOVE_EXISTING = (if remove_existing then "true" else "false").
Proof. eexists. repeat split. Qed.

Lemma ensure_ssh_directory_next (s : shell) :
  exists s',
    ensure_ssh_directory s = Next tt s'
    /\ env s' = env s
    /\ files s' = ssh_directory_ensured (files s)
    /\ authorized_keys (files s') = authorized_keys (files s)
    /\ read_only (files s') = read_only (files s)
    /\ (read_only (files s) = true -> root_ssh (files s') = root_ssh (files s)).
Proof.
  eexists. split; [reflexivity|]. split; [reflexivity|].
  split; [reflexivity|].
  unfold mkdir_p_root_ssh, chmod_root_ssh, on_files. cbn [files].
  destruct (root_ssh (files s)) eqn:R, (read_only (files s)) eqn:O;
    cbn [root_ssh read_only authorized_keys]; rewrite ?R, ?O;
    cbn [root_ssh read_only authorized_keys]; rewrite ?R, ?O;
    repeat split; try reflexivity; try discriminate; auto.
Qed.

Lemma read_existing_keys_next (s : shell) :
  exists s',
    read_existing_keys s = Next tt s'
    /\ files s' = files s
    /\ env s' EXISTING_KEYS = existing_keys (files s)
    /\ env s' KEYS = env s KEYS
    /\ env s' REMOVE_EXISTING = env s REMOVE_EXISTING.
Proof.
  unfold read_existing_keys, existing_keys, sh_bind, test_f_authorized_keys,
    cat_authorized_keys, assign.
  destruct (authorized_keys (files s)) as [[text mode]|] eqn:A;
    eexists; repeat split; cbn [env files var_eqb]; now rewrite ?A.
Qed.





Lemma update_keys_replace (s : shell) :
  env s REMOVE_EXISTING = "true" ->
  exists s',
    update_keys_in_memory s = Next tt s'
    /\ files s' = files s
    /\ env s' UPDATED_KEYS = env s KEYS
    /\ env s' EXISTING_KEYS = env s EXISTING_KEYS.
Proof.
  intros Hflag. unfold update_keys_in_memory.
  unfold sh_bind at 1. cbn [value_of]. rewrite Hflag.
  cbn [String.eqb Ascii.eqb Bool.eqb].
  eexists. repeat split.
Qed.

Lemma compare_and_write_exits (s : shell) :
  exists s',
    compare_and_write s
    = Exit (if env s UPDATED_KEYS =? env s EXISTING_KEYS then 0%Z else 1%Z)
           s'
    /\ files s'
       = (if env s UPDATED_KEYS =? env s EXISTING_KEYS then files s
          else files (final ((write_authorized_keys
                                (echo (env s UPDATED_KEYS)) ;>
                              chmod_authorized_keys 384)%sh s))).
Proof.
  unfold compare_and_write, sh_bind, value_of.
  destruct (env s UPDATED_KEYS =? env s EXISTING_KEYS);
    eexists; split; reflexivity.
Qed.



(** Replace mode: nothing to do when the key text is what the file
    already holds, otherwise the file is rewritten (if it can be) and
    the script exits 1 either way. *)
Lemma replace_mode_script (keys : string) (st : container_state) :
  run_keys_script keys true st
  = if keys =? existing_keys st
    then (completed 0 "", ssh_directory_ensured st)
    else (completed 1 "",
          files (final ((write_authorized_keys (echo keys) ;>
                         chmod_authorized_keys 384)%sh
                          {| env := fun _ => "";
                             files := ssh_directory_ensured st |}))).
Proof.
  unfold run_keys_script, keys_script.
  destruct (set_parameters_next keys true
              {| env := fun _ => ""; files := st |})
    as (s1 & E1 & F1 & K1 & R1).
  rewrite (sh_bind_next _ _ _ _ _ E1).
  destruct (ensure_ssh_directory_next s1) as (s2 & E2 & V2 & F2 & A2 & _).
  rewrite (sh_bind_next _ _ _ _ _ E2).
  destruct (read_existing_keys_next s2) as (s3 & E3 & F3 & X3 & K3 & R3).
  rewrite (sh_bind_next _ _ _ _ _ E3).
  destruct (update_keys_replace s3) as (s4 & E4 & F4 & U4 & X4);
    [congruence|].
  rewrite (sh_bind_next _ _ _ _ _ E4).
  destruct (compare_and_write_exits s4) as (s5 & E5 & F5).
  unfold sh_bind at 1. rewrite E5.
  assert (Hk : env s4 UPDATED_KEYS = keys) by congruence.
  assert (He : env s4 EXISTING_KEYS = existing_keys st).
  { rewrite X4, X3. unfold existing_keys. now rewrite A2, F1. }
  rewrite Hk, He in *.
  cbn [files] in F1.
  assert (Hf : files s4 = ssh_directory_ensured st) by congruence.
  destruct (keys =? existing_keys st).
  - now rewrite F5, Hf.
  - rewrite F5. cbn [fst snd]. f_equal.
    unfold sh_bind, write_authorized_keys, chmod_authorized_keys, on_files.
    cbn [final files]. now rewrite Hf.
Qed.

(** ** The reconcilers on one container *)

(** C1: with [A] and [B] in [authorized_keys] and [B], [C] in the key
    file, merge mode sends the script, which exits 0: the call reports
    no change and the file still holds [A] and [B] only, while the
    contract asks for [A], [B], [C]. *)
Theorem merge_mode_appends_nothing :
  let st := with_keys (key_A ++ NL ++ key_B ++ NL) in
  let r := add_ssh_public_keys (container_exec quiet)
             (keys_pub (key_B ++ NL ++ key_C ++ NL))
             (box "debian") "keys.pub" false (start st) in
  fst r = Ok keys_unchanged
  /\ authorized_keys (world (snd r))
     = Some (key_A ++ NL ++ key_B ++ NL, 384%N).
Proof. split; reflexivity. Qed.

(** The other half of the contract holds: replace mode leaves exactly
    the lines of the key file. *)
Example replace_mode_keeps_canonical_keys :
  let st := with_keys (key_A ++ NL ++ key_B ++ NL) in
  let r := add_ssh_public_keys (container_exec quiet)
             (keys_pub (key_B ++ NL ++ key_C ++ NL))
             (box "debian") "keys.pub" true (start st) in
  fst r = Ok keys_changed
  /\ authorized_keys (world (snd r))
     = Some (key_B ++ NL ++ key_C ++ NL, 384%N).
Proof. split; reflexivity. Qed.

Lemma unconfigured_password_auth_once
    (other : command -> container_state -> CompletedProcess * container_state)
    (c : container) (status : string) (h : host container_state) :
  sshd_config (world h) = None ->
  set_ssh_password_authentication (container_exec other) c status h
  = (Ok not_configured,
     {| world := world h;
        trace := (trace h ++ [(vmid c, GrepPasswordAuthentication)])%list;
        console := console h |}).
Proof.
  intros Hcfg.
  unfold set_ssh_password_authentication, bind, ret.
  rewrite subprocess_run_eq.
  cbn [container_exec fst snd]. unfold grep_probe.
  now rewrite Hcfg.
Qed.

(** C2: on a container without [sshd_config] the password reconciler
    answers [changed = True] on the first call and again on the second,
    and the container is as before. *)
Theorem unconfigured_password_auth_changes_twice
    (other : command -> container_state -> CompletedProcess * container_state)
    (c : container) (status : string) (st : container_state) :
  sshd_config st = None ->
  let first := set_ssh_password_authentication (container_exec other) c
                 status (start st) in
  let second := set_ssh_password_authentication (container_exec other) c
                  status (snd first) in
  fst first = Ok not_configured
  /\ fst second = Ok not_configured
  /\ world (snd second) = st.
Proof.
  intros Hcfg first second. subst first second.
  rewrite (unconfigured_password_auth_once other c status (start st) Hcfg).
  cbn [fst snd].
  rewrite unconfigured_password_auth_once by exact Hcfg.
  now repeat split.
Qed.

Lemma unconfigured_password_auth_changes_twice_witness :
  sshd_config sealed = None
  /\ fst (set_ssh_password_authentication (container_exec quiet)
            (box "debian") "no"
            (snd (set_ssh_password_authentication (container_exec quiet)
                    (box "debian") "no" (start sealed))))
     = Ok not_configured.
Proof.
  split; [reflexivity|].
  exact (proj1 (proj2 (unconfigured_password_auth_changes_twice
                         quiet (box "debian") "no" sealed eq_refl))).
Defined.

(** C3: when [/root/.ssh] cannot be created and nothing can be written,
    the script still ends in [exit 1], and the call returns the very
    tuple of a successful change although no key file exists
    afterwards. *)
Theorem failed_key_write_reported_as_changed
    (other : command -> container_state -> CompletedProcess * container_state)
    (host_file : string -> option string) (c : container)
    (key_file content : string) (st : container_state) :
  host_file key_file = Some content ->
  strip content <> "" ->
  read_only st = true ->
  root_ssh st = None ->
  authorized_keys st = None ->
  let r := add_ssh_public_keys (container_exec other) host_file c key_file
             true (start st) in
  fst r = Ok keys_changed /\ authorized_keys (world (snd r)) = None.
Proof.
  intros Hfile Hkeys Hro Hdir Hak r. subst r.
  unfold add_ssh_public_keys. rewrite Hfile.
  apply String.eqb_neq in Hkeys. rewrite Hkeys.
  unfold bind, ret. rewrite subprocess_run_eq.
  cbn [container_exec fst snd world start].
  rewrite replace_mode_script.
  assert (Hens : ssh_directory_ensured st = st).
  { unfold ssh_directory_ensured, ensure_ssh_directory, sh_bind,
      mkdir_p_root_ssh, chmod_root_ssh, on_files.
    cbn [files final]. rewrite Hdir, Hro. cbn [files]. now rewrite Hdir. }
  assert (Hex : existing_keys st = "")
    by (unfold existing_keys; now rewrite Hak).
  rewrite Hex, Hkeys, Hens.
  unfold sh_bind, write_authorized_keys, chmod_authorized_keys, on_files.
  cbn [files final fst snd completed returncode Z.eqb world].
  rewrite Hdir. cbn [files]. rewrite Hak. now split.
Qed.

Lemma failed_key_write_reported_as_changed_witness :
  keys_pub key_A "keys.pub" = Some key_A
  /\ strip key_A <> ""
  /\ read_only sealed = true
  /\ root_ssh sealed = None
  /\ authorized_keys sealed = None
  /\ fst (add_ssh_public_keys (container_exec quiet) (keys_pub key_A)
            (box "alpine") "keys.pub" true (start sealed))
     = Ok keys_changed.
Proof.
  assert (N : strip key_A <> "") by discriminate.
  repeat (split; [first [reflexivity | exact N]|]).
  exact (proj1 (failed_key_write_reported_as_changed
                  quiet (keys_pub key_A) (box "alpine") "keys.pub" key_A
                  sealed eq_refl N eq_refl eq_refl eq_refl)).
Defined.

(** The three tuples that the caller can get after the script ran are
    different from one another; what makes the failure of C3 invisible
    is the exit status of the script, not the Python side. *)
Lemma key_results_distinct (detail : string) :
  keys_unchanged <> keys_changed
  /\ keys_unchanged <> keys_failed detail
  /\ keys_changed <> keys_failed detail.
Proof. repeat split; discriminate. Qed.

(** C5 as stated fails: a line that only begins with the desired
    directive satisfies the probe. *)
Lemma probe_accepts_longer_value :
  fst (set_ssh_password_authentication (container_exec quiet)
         (box "debian") "no"
         (start (with_config ("PasswordAuthentication nope" ++ NL))))
  = Ok already_set
  /\ ~ In "PasswordAuthentication no"
          (text_lines ("PasswordAuthentication nope" ++ NL)).
Proof.
  split; [reflexivity|]. cbn. intros [H | []]. discriminate.
Qed.

Lemma password_probe_satisfied_by_prefix_witness :
  sshd_config (with_config ("Port 22" ++ NL ++ "PasswordAuthentication no"
                            ++ NL))
  = Some ("Port 22" ++ NL ++ "PasswordAuthentication no" ++ NL)
  /\ plain_text ("Port 22" ++ NL ++ "PasswordAuthentication no" ++ NL)
  /\ fst (set_ssh_password_authentication (container_exec quiet)
            (box "debian") "no"
            (start (with_config ("Port 22" ++ NL
                                 ++ "PasswordAuthentication no" ++ NL))))
     = Ok already_set.
Proof.
  split; [reflexivity|]. split; [reflexivity|].
  apply (proj2 (password_probe_satisfied_by_prefix quiet (box "debian") "no"
                  (with_config ("Port 22" ++ NL
                                ++ "PasswordAuthentication no" ++ NL))
                  _ eq_refl eq_refl)).
  exists "PasswordAuthentication no". split; [|reflexivity].
  right. now left.
Defined.

(** *** Replace mode settles

    A check of the model on the path that [main] takes: after one call
    in replace mode on a writable container, a second call finds the
    file equal to the key text and exits 0. *)






(** ** Closed instances of the host-side statements *)

(** C6 as stated fails: with [sshd] on the path and the service down,
    the unknown id [arch] does not end the call as unsupported; the
    enable and start command is sent. *)
Lemma unknown_id_still_configured :
  let r := install_openssh (container_exec service_down) (box "arch")
             (start sealed) in
  ~ In "arch" ["alpine"; "debian"; "ubuntu"; "centos"; "rhel"; "fedora"]
  /\ fst r = Ok (true, "SSH service started and enabled.")
  /\ map snd (trace (snd r))
     = [CommandVSshd; SystemctlCheck; SystemctlConfigure]
  /\ existsb installs_or_enables (map snd (trace (snd r))) = true.
Proof.
  cbv zeta. split; [|repeat split].
  cbn. intuition discriminate.
Qed.

Lemma install_dispatch_by_id_witness :
  version_id (box "ubuntu") = Ok "ubuntu"
  /\ returncode (fst (container_exec no_sshd "101" CommandVSshd sealed))
     <> 0%Z
  /\ trace (snd (install_openssh (container_exec no_sshd) (box "ubuntu")
                   (start sealed)))
     = [("101", CommandVSshd); ("101", AptInstall)].
Proof.
  assert (N : returncode (fst (container_exec no_sshd "101" CommandVSshd
                                 sealed)) <> 0%Z) by discriminate.
  split; [reflexivity|]. split; [exact N|].
  exact (proj1 (proj2 (install_dispatch_by_id container_state
                         (container_exec no_sshd) (box "ubuntu") "ubuntu"
                         (start sealed) eq_refl N))
               (or_intror eq_refl)).
Defined.

(** The value under [id] keeps its case: only the key is lowered. *)
Example id_value_case_is_kept :
  parse_os_release ("ID=Alpine" ++ NL) = Ok [("id", "Alpine")]
  /\ install_command_for "Alpine" = None.
Proof. split; reflexivity. Qed.

(** C7 as stated fails: a comment line, which has no equals sign, is
    not skipped; the whole parse ends with [IndexError]. *)
Lemma line_without_equals_is_fatal :
  fst (get_linux_version
         (prints_os_release ("ID=alpine" ++ NL ++ "# local build" ++ NL))
         "101" (start tt))
  = Raise IndexError.
Proof. reflexivity. Qed.

Lemma keys_file_missing_or_blank_witness :
  add_ssh_public_keys (container_exec quiet) (fun _ => None) (box "debian")
    "keys.pub" true (start sealed)
  = (Ok (false, "Key file 'keys.pub' not found."), start sealed)
  /\ add_ssh_public_keys (container_exec quiet) (keys_pub (" " ++ NL))
       (box "debian") "keys.pub" true (start sealed)
     = (Ok (false, "Key file is empty."), start sealed).
Proof.
  split.
  - exact (proj1 (keys_file_missing_or_blank container_state
                    (container_exec quiet) (fun _ => None) (box "debian")
                    "keys.pub" true (start sealed)) eq_refl).
  - exact (proj2 (keys_file_missing_or_blank container_state
                    (container_exec quiet) (keys_pub (" " ++ NL))
                    (box "debian") "keys.pub" true (start sealed))
                 (" " ++ NL) eq_refl eq_refl).
Defined.

(** The witness of C10 is a container on which [sed -i] cannot write:
    the command fails with status 4, the file stays as it was, and the
    call reports that the directive was set. *)
Lemma password_auth_change_reported_blindly_witness :
  let st := sealed_with_config ("#PasswordAuthentication yes" ++ NL) in
  returncode (fst (sed_in_place "no" st)) = 4%Z
  /\ snd (sed_in_place "no" st) = st
  /\ fst (set_ssh_password_authentication (container_exec quiet)
            (box "debian") "no" (start st))
     = Ok (true, "PasswordAuthentication set to no").
Proof.
  cbv zeta. split; [reflexivity|]. split; [reflexivity|].
  exact (proj1 (password_auth_change_reported_blindly container_state
                  (container_exec quiet) (box "debian") "no" "debian"
                  (start (sealed_with_config
                            ("#PasswordAuthentication yes" ++ NL)))
                  eq_refl eq_refl eq_refl)).
Defined.

(** ** The fleet loop of [main] *)

Section Fleet.

Variable World : Type.
Variable pct_exec : string -> command -> World -> CompletedProcess * World.
Variable host_file : string -> option string.











End Fleet.
Lemma stage_report_length
    (attempt : string -> container -> option string -> Prop)
    (total i : nat) (items : dict container) (bars : list output) :
  stage_report attempt total i items bars -> length bars = length items.
Proof. induction 1; cbn; congruence. Qed.

Section Run.

Variable World : Type.
Variable pct_exec : string -> command -> World -> CompletedProcess * World.
Variable host_file : string -> option string.


End Run.



(** ** More on the os-release parser *)

Lemma dict_get_set {V} (k k' : string) (v : V) (d : dict V) :
  dict_get k (dict_set k' v d)
  = if k =? k' then Some v else dict_get k d.
Proof.
  induction d as [|[k0 v0] r IH]; cbn [dict_set dict_get].
  - reflexivity.
  - destruct (k' =? k0) eqn:E; cbn [dict_get].
    + apply String.eqb_eq in E. subst k0. now destruct (k =? k').
    + rewrite IH. destruct (k =? k0) eqn:E0; [|reflexivity].
      apply String.eqb_eq in E0. subst k0.
      now rewrite String.eqb_sym, E.
Qed.

Lemma in_dict_set {V} (k k' : string) (v v' : V) (d : dict V) :
  In (k, v) (dict_set k' v' d) -> (k = k' /\ v = v') \/ In (k, v) d.
Proof.
  induction d as [|[k0 v0] r IH]; cbn [dict_set].
  - intros [[= <- <-] | []]. now left.
  - destruct (k' =? k0) eqn:E.
    + apply String.eqb_eq in E. subst k0.
      intros [[= <- <-] | H]; [now left|right; now right].
    + intros [H | H]; [right; now left|].
      destruct (IH H) as [H1 | H1]; [now left|right; now right].
Qed.

Lemma find_last {A} (p : A -> bool) (l : list A) (x : A) :
  find p (l ++ [x])
  = match find p l with
    | Some y => Some y
    | None => if p x then Some x else None
    end.
Proof.
  induction l as [|a r IH]; cbn [app find]; [reflexivity|].
  now destruct (p a).
Qed.

Lemma split_item (line : string) (k v : string) (r : list string) :
  split "=" line = k :: v :: r ->
  os_release_field line = (lower k, remove_char DQUOTE v).
Proof. unfold os_release_field. now intros ->. Qed.

Lemma dict_of_items_lookup (lines : list string) :
  forall d0 d k,
    dict_of_items (map (split "=") lines) d0 = Ok d ->
    dict_get k d
    = match last_field k (map os_release_field lines) with
      | Some v => Some v
      | None => dict_get k d0
      end.
Proof.
  unfold last_field.
  induction lines as [|line rest IH]; intros d0 d k; cbn [map dict_of_items].
  - now intros [= <-].
  - destruct (split "=" line) as [|key [|v r]] eqn:S; try discriminate.
    intros H. rewrite (IH _ _ k H), dict_get_set.
    cbn [rev]. rewrite find_last.
    destruct (find _ (rev (map os_release_field rest))); [reflexivity|].
    rewrite (split_item _ _ _ _ S). cbn [fst snd option_map].
    now destruct (lower key =? k) eqn:E; rewrite String.eqb_sym, E.
Qed.

(** X1: A lookup in the parsed dictionary finds the field of the last line
    with that key, the key compared after lowering, or nothing when no
    line has it. *)
Theorem os_release_lookup_is_last_line (stdout : string) (d : dict string)
    (k : string) :
  parse_os_release stdout = Ok d ->
  dict_get k d = last_field k (map os_release_field (splitlines stdout)).
Proof.
  unfold parse_os_release. intros H.
  rewrite (dict_of_items_lookup _ _ _ k H). cbn [dict_get].
  now destruct (last_field _ _).
Qed.

Lemma os_release_lookup_is_last_line_witness :
  parse_os_release ("ID=debian" ++ NL ++ "Id=ubuntu" ++ NL)
  = Ok [("id", "ubuntu")]
  /\ dict_get "id" [("id", "ubuntu")] = Some "ubuntu".
Proof.
  split; [reflexivity|].
  exact (os_release_lookup_is_last_line
           ("ID=debian" ++ NL ++ "Id=ubuntu" ++ NL) [("id", "ubuntu")] "id"
           eq_refl).
Defined.

Lemma lower_char_idempotent (c : ascii) :
  lower_char (lower_char c) = lower_char c.
Proof. destruct c as [[] [] [] [] [] [] [] []]; reflexivity. Qed.

Lemma lower_idempotent (s : string) : lower (lower s) = lower s.
Proof.
  induction s as [|c t IH]; cbn [lower]; [reflexivity|].
  now rewrite lower_char_idempotent, IH.
Qed.

Lemma remove_char_gone (c : ascii) (s : string) :
  ~ In c (chars (remove_char c s)).
Proof.
  unfold chars. induction s as [|d t IH]; cbn [remove_char]; [intros []|].
  destruct (Ascii.eqb d c) eqn:E; [exact IH|].
  cbn [list_ascii_of_string]. intros [-> | H]; [|now apply IH].
  now rewrite Ascii.eqb_refl in E.
Qed.

Lemma dict_of_items_entries (lines : list string) :
  forall d0 d,
    dict_of_items (map (split "=") lines) d0 = Ok d ->
    (forall k v, In (k, v) d0 ->
                 lower k = k /\ ~ In DQUOTE (chars v)) ->
    forall k v, In (k, v) d -> lower k = k /\ ~ In DQUOTE (chars v).
Proof.
  induction lines as [|line rest IH]; intros d0 d; cbn [map dict_of_items].
  - intros [= <-]. auto.
  - destruct (split "=" line) as [|key [|v0 r]]; try discriminate.
    intros H Hd0. apply (IH _ _ H).
    intros k v Hin. apply in_dict_set in Hin as [[-> ->] | Hin].
    + split; [apply lower_idempotent|apply remove_char_gone].
    + now apply Hd0.
Qed.

(** X2: Every key of the parsed dictionary is in lower case and no value
    has a double quote left in it. *)
Theorem os_release_entries_normalised (stdout : string) (d : dict string)
    (k v : string) :
  parse_os_release stdout = Ok d ->
  In (k, v) d ->
  lower k = k /\ ~ In DQUOTE (chars v).
Proof.
  unfold parse_os_release. intros H.
  apply (dict_of_items_entries _ _ _ H). intros ? ? [].
Qed.

Lemma os_release_entries_normalised_witness :
  parse_os_release ("PRETTY_NAME=" ++ String DQUOTE "Alpine Linux v3.19"
                    ++ String DQUOTE NL)
  = Ok [("pretty_name", "Alpine Linux v3.19")]
  /\ lower "pretty_name" = "pretty_name".
Proof.
  split; [reflexivity|].
  exact (proj1 (os_release_entries_normalised
                  ("PRETTY_NAME=" ++ String DQUOTE "Alpine Linux v3.19"
                   ++ String DQUOTE NL)
                  [("pretty_name", "Alpine Linux v3.19")]
                  "pretty_name" "Alpine Linux v3.19"
                  eq_refl (or_introl eq_refl))).
Defined.

Lemma all_chars_append (p : ascii -> bool) (a b : string) :
  all_chars p (a ++ b) = all_chars p a && all_chars p b.
Proof.
  unfold all_chars, chars.
  induction a as [|c a IH]; cbn [append forallb list_ascii_of_string].
  - reflexivity.
  - now rewrite IH, andb_assoc.
Qed.

Lemma split_at_separator (sep : ascii) (k rest : string) :
  all_chars (fun c => negb (Ascii.eqb c sep)) k = true ->
  split sep (k ++ String sep rest) = k :: split sep rest.
Proof.
  unfold all_chars, chars.
  induction k as [|c k IH]; cbn [append split forallb list_ascii_of_string].
  - intros _. now rewrite Ascii.eqb_refl.
  - intros H. apply andb_prop in H as [Hc Hk].
    apply negb_true_iff in Hc. rewrite Hc. now rewrite IH.
Qed.

Lemma splitlines_single (l : string) :
  plain_line l -> l <> "" -> splitlines l = [l].
Proof.
  unfold plain_line, all_chars, chars.
  induction l as [|c t IH]; [congruence|].
  cbn [splitlines forallb list_ascii_of_string]. intros H _.
  apply andb_prop in H as [Hc Ht]. apply negb_true_iff in Hc. rewrite Hc.
  destruct t as [|d u]; [reflexivity|].
  now rewrite IH.
Qed.

Lemma no_equals_chars (s : string) :
  has_equals s = false ->
  all_chars (fun c => negb (Ascii.eqb c "=")) s = true.
Proof.
  unfold has_equals, all_chars, chars.
  induction (list_ascii_of_string s) as [|c r IH]; cbn [existsb forallb].
  - reflexivity.
  - intros H. apply orb_false_elim in H as [Hc Hr].
    rewrite Ascii.eqb_sym, Hc. now apply IH.
Qed.

(** X3: A value that has an equals sign in it is cut there: of the line
    [key=v=w] only [v] is kept. *)
Theorem os_release_value_cut_at_equals (key v w : string) :
  has_equals key = false -> has_equals v = false ->
  plain_line key -> plain_line v -> plain_line w ->
  parse_os_release (key ++ "=" ++ v ++ "=" ++ w)
  = Ok [(lower key, remove_char DQUOTE v)].
Proof.
  intros Hk Hv Pk Pv Pw. unfold parse_os_release.
  rewrite splitlines_single.
  - cbn [map dict_of_items].
    change (key ++ "=" ++ v ++ "=" ++ w)
      with (key ++ String "=" (v ++ String "=" w)).
    rewrite split_at_separator by now apply no_equals_chars.
    rewrite split_at_separator by now apply no_equals_chars.
    reflexivity.
  - unfold plain_line in *. rewrite !all_chars_append, Pk, Pv, Pw.
    reflexivity.
  - destruct key; discriminate.
Qed.

Lemma os_release_value_cut_at_equals_witness :
  has_equals "HOME_URL" = false
  /\ has_equals "https://example.org/?a" = false
  /\ parse_os_release ("HOME_URL" ++ "=" ++ "https://example.org/?a" ++ "="
                       ++ "1")
     = Ok [("home_url", "https://example.org/?a")].
Proof.
  split; [reflexivity|]. split; [reflexivity|].
  exact (os_release_value_cut_at_equals "HOME_URL" "https://example.org/?a"
           "1" eq_refl eq_refl eq_refl eq_refl eq_refl).
Defined.

(** ** [get_lxc_containers] *)

Lemma word_cons (c : ascii) (t : string) :
  isspace c = false ->
  (t = "" \/ word t) -> word (String c t).
Proof.
  intros Hc Ht. split; [discriminate|].
  unfold all_chars, chars. cbn [forallb list_ascii_of_string].
  rewrite Hc. destruct Ht as [-> | [_ Ht]]; [reflexivity|exact Ht].
Qed.

Lemma word_inv (c : ascii) (t : string) :
  word (String c t) -> isspace c = false /\ (t = "" \/ word t).
Proof.
  intros [_ H]. unfold all_chars, chars in H.
  cbn [forallb list_ascii_of_string] in H.
  apply andb_prop in H as [Hc Ht]. apply negb_true_iff in Hc.
  split; [assumption|].
  destruct t; [now left|right]. split; [discriminate|exact Ht].
Qed.

Lemma fields_words (s : string) : Forall word (fields s).
Proof.
  induction s as [|c t IH]; cbn [fields]; [constructor|].
  destruct (isspace c) eqn:Hc; [exact IH|].
  destruct t as [|d u].
  - constructor; [|constructor]. apply word_cons; auto.
  - destruct (isspace d) eqn:Hd.
    + constructor; [|exact IH]. apply word_cons; auto.
    + destruct (fields (String d u)) as [|h r].
      * constructor; [|constructor]. apply word_cons; auto.
      * inversion IH; subst. constructor; [|assumption].
        apply word_cons; auto.
Qed.

Lemma fields_word (w : string) : word w -> fields w = [w].
Proof.
  induction w as [|c t IH]; [intros [H _]; congruence|].
  intros H. apply word_inv in H as [Hc Ht]. cbn [fields]. rewrite Hc.
  destruct Ht as [-> | Ht]; [reflexivity|].
  destruct t as [|d u]; [destruct Ht; congruence|].
  destruct (word_inv _ _ Ht) as [Hd _]. rewrite Hd.
  now rewrite (IH Ht).
Qed.

Lemma fields_word_then_space (w rest : string) (sp : ascii) :
  word w -> isspace sp = true ->
  fields (w ++ String sp rest) = w :: fields rest.
Proof.
  intros Hw Hsp. induction w as [|c t IH]; [destruct Hw; congruence|].
  apply word_inv in Hw as [Hc Ht].
  cbn [append]. cbn [fields]. rewrite Hc.
  destruct Ht as [-> | Ht].
  - cbn [append]. rewrite Hsp. cbn [fields]. now rewrite Hsp.
  - destruct t as [|d u]; [destruct Ht; congruence|].
    cbn [append]. destruct (word_inv _ _ Ht) as [Hd _]. rewrite Hd.
    cbn [append] in IH. now rewrite (IH Ht).
Qed.

Lemma fields_join (ws : list string) :
  Forall word ws -> fields (join " " ws) = ws.
Proof.
  induction 1 as [|w r Hw Hr IH]; [reflexivity|].
  destruct r as [|w2 r]; [now apply fields_word|].
  change (join " " (w :: w2 :: r))
    with (w ++ String " " (join " " (w2 :: r))).
  rewrite fields_word_then_space by (assumption || reflexivity).
  now rewrite IH.
Qed.

(** Gluing the words of a line with single spaces and cutting again, as
    the loop does, gives the words of the line: the fields are those of
    [line.split()]. *)
Theorem listed_line_fields (line : string) :
  fields (join " " (fields line)) = fields line.
Proof. apply fields_join, fields_words. Qed.

Lemma fields_gap (g rest : string) :
  all_chars (Ascii.eqb " ") g = true -> fields (g ++ rest) = fields rest.
Proof.
  unfold all_chars, chars.
  induction g as [|c g IH]; cbn [append forallb list_ascii_of_string];
    [reflexivity|].
  intros H. apply andb_prop in H as [Hc Hg].
  apply Ascii.eqb_eq in Hc. subst c. cbn [fields].
  change (isspace " ") with true. cbv iota. now apply IH.
Qed.

Lemma fields_word_then_gap (w g rest : string) :
  word w -> gap g -> fields (w ++ g ++ rest) = w :: fields rest.
Proof.
  intros Hw [Hne Hg]. destruct g as [|c g]; [congruence|].
  unfold all_chars, chars in Hg. cbn [forallb list_ascii_of_string] in Hg.
  apply andb_prop in Hg as [Hc Hg]. apply Ascii.eqb_eq in Hc. subst c.
  cbn [append]. rewrite fields_word_then_space by (assumption || reflexivity).
  now rewrite fields_gap.
Qed.

Lemma fields_row (g1 g2 v status name : string) :
  gap g1 -> gap g2 -> word v -> word status -> word name ->
  fields (pct_row g1 g2 (v, status, name)) = [v; status; name].
Proof.
  intros G1 G2 Hv Hs Hn. unfold pct_row.
  rewrite !fields_word_then_gap by assumption.
  now rewrite fields_word.
Qed.

Lemma linebreak_is_space (c : ascii) :
  is_linebreak c = true -> isspace c = true.
Proof.
  destruct c as [[] [] [] [] [] [] [] []]; vm_compute; intros H;
    congruence.
Qed.

Lemma all_chars_impl (p q : ascii -> bool) (s : string) :
  (forall c, p c = true -> q c = true) ->
  all_chars p s = true -> all_chars q s = true.
Proof.
  intros Hpq. unfold all_chars, chars.
  induction (list_ascii_of_string s) as [|c r IH]; cbn [forallb];
    [reflexivity|].
  intros H. apply andb_prop in H as [Hc Hr]. now rewrite Hpq, IH.
Qed.

Lemma word_plain (w : string) : word w -> plain_line w.
Proof.
  intros [_ H]. unfold plain_line. revert H. apply all_chars_impl.
  intros c Hc. destruct (is_linebreak c) eqn:E; [|reflexivity].
  apply linebreak_is_space in E. now rewrite E in Hc.
Qed.

Lemma gap_plain (g : string) : gap g -> plain_line g.
Proof.
  intros [_ H]. unfold plain_line. revert H. apply all_chars_impl.
  intros c Hc. apply Ascii.eqb_eq in Hc. now subst c.
Qed.

Lemma row_plain (g1 g2 v status name : string) :
  gap g1 -> gap g2 -> word v -> word status -> word name ->
  plain_line (pct_row g1 g2 (v, status, name)).
Proof.
  intros G1 G2 Hv Hs Hn. unfold pct_row, plain_line.
  rewrite !all_chars_append.
  rewrite (word_plain _ Hv), (word_plain _ Hs), (word_plain _ Hn).
  now rewrite (gap_plain _ G1), (gap_plain _ G2).
Qed.

Lemma dict_set_fresh {V} (k : string) (v : V) (d : dict V) :
  ~ In k (map fst d) -> dict_set k v d = (d ++ [(k, v)])%list.
Proof.
  induction d as [|[k0 v0] r IH]; cbn [dict_set map fst app In];
    [reflexivity|].
  intros H. destruct (k =? k0) eqn:E.
  - apply String.eqb_eq in E. subst k0. tauto.
  - rewrite IH by tauto. reflexivity.
Qed.

Lemma add_listed_rows (g1 g2 : string)
    (records : list (string * string * string)) :
  gap g1 -> gap g2 ->
  Forall well_formed_record records ->
  forall containers,
    NoDup (map fst containers ++ map (fun r => snd r) records) ->
    add_listed_containers (map (pct_row g1 g2) records) containers
    = Ok (containers ++ map listed_as records)%list.
Proof.
  intros G1 G2. induction 1 as [|[[v status] name] rest Hr Hrest IH];
    intros containers Hnd; cbn [map add_listed_containers].
  - now rewrite app_nil_r.
  - destruct Hr as (Hv & Hs & Hn).
    unfold add_listed_container.
    rewrite listed_line_fields, fields_row by assumption.
    cbn [snd] in Hnd.
    rewrite dict_set_fresh.
    + rewrite IH.
      * cbn [listed_as]. now rewrite <- app_assoc.
      * rewrite map_app. cbn [map fst]. rewrite <- app_assoc. exact Hnd.
    + apply NoDup_remove_2 in Hnd. intros Hin. apply Hnd.
      apply in_or_app. now left.
Qed.

(** X4: Round trip of the listing: a header line and one row per container
    (three words in columns, names all different) parse back to these
    containers, in the order of the rows, running exactly when the
    status word is [running] and without a ['version'] yet. *)
Theorem pct_list_round_trip (header g1 g2 : string)
    (records : list (string * string * string)) :
  plain_line header ->
  gap g1 -> gap g2 ->
  Forall well_formed_record records ->
  NoDup (map (fun r => snd r) records) ->
  parse_pct_list (header ++ NL ++ unlines (map (pct_row g1 g2) records))
  = Ok (map listed_as records).
Proof.
  intros Hh G1 G2 Hrec Hnd. unfold parse_pct_list.
  rewrite splitlines_first_line by assumption.
  rewrite splitlines_unlines.
  - cbn [tl]. now apply (add_listed_rows g1 g2 records G1 G2 Hrec []).
  - induction Hrec as [|[[v status] name] rest (Hv & Hs & Hn) Hrest IH];
      cbn [map]; constructor.
    + now apply row_plain.
    + apply IH. now inversion Hnd.
Qed.

Lemma pct_list_round_trip_witness :
  let records := [("101", "running", "web"); ("102", "stopped", "db")] in
  parse_pct_list ("VMID       Status     Lock         Name" ++ NL
                  ++ unlines (map (pct_row "        " "                 ")
                                  records))
  = Ok [("web", listed "101" true); ("db", listed "102" false)].
Proof.
  cbv zeta.
  apply (pct_list_round_trip "VMID       Status     Lock         Name"
           "        " "                 "
           [("101", "running", "web"); ("102", "stopped", "db")]).
  - reflexivity.
  - split; [discriminate|reflexivity].
  - split; [discriminate|reflexivity].
  - repeat constructor; discriminate.
  - repeat constructor; cbn; intuition discriminate.
Defined.

Lemma add_listed_container_shape (line : string)
    (containers : dict container) :
  if (3 <=? length (fields line))%nat
  then exists f0 f1 f2,
         add_listed_container line containers
         = Ok (dict_set f2 {| vmid := f0; running := f1 =? "running";
                              version := None |} containers)
  else add_listed_container line containers = Raise IndexError.
Proof.
  unfold add_listed_container. rewrite listed_line_fields.
  destruct (fields line) as [|f0 [|f1 [|f2 r]]]; cbn; eauto.
Qed.

(** X5: The listing parses exactly when every line after the header has
    three words or more; a shorter line, a blank one for instance, ends
    [get_lxc_containers] with [IndexError]. *)
Theorem pct_list_needs_three_columns (stdout : string) :
  if forallb (fun line => (3 <=? length (fields line))%nat)
             (tl (splitlines stdout))
  then exists containers, parse_pct_list stdout = Ok containers
  else parse_pct_list stdout = Raise IndexError.
Proof.
  unfold parse_pct_list. generalize (@nil (string * container)).
  induction (tl (splitlines stdout)) as [|line rest IH]; intros acc;
    cbn [forallb add_listed_containers].
  - now exists acc.
  - pose proof (add_listed_container_shape line acc) as S.
    destruct (3 <=? length (fields line))%nat; cbn [andb].
    + destruct S as (f0 & f1 & f2 & ->). apply IH.
    + now rewrite S.
Qed.

Lemma dict_set_keys {V} (k : string) (v : V) (d : dict V) :
  (map fst (dict_set k v d) = map fst d
   /\ length (dict_set k v d) = length d)
  \/ (~ In k (map fst d)
      /\ map fst (dict_set k v d) = (map fst d ++ [k])%list
      /\ length (dict_set k v d) = S (length d)).
Proof.
  induction d as [|[k0 v0] r IH]; cbn [dict_set map fst length].
  - right. repeat split. intros [].
  - destruct (k =? k0) eqn:E; cbn [map fst length].
    + now left.
    + apply String.eqb_neq in E.
      destruct IH as [[Hk Hl] | (Hout & Hk & Hl)]; rewrite Hk, Hl.
      * now left.
      * right. repeat split. intros [H | H]; [congruence|tauto].
Qed.

Lemma NoDup_snoc {A} (l : list A) (x : A) :
  NoDup l -> ~ In x l -> NoDup (l ++ [x]).
Proof.
  induction 1 as [|a r Ha Hr IH]; cbn; intros Hx.
  - constructor; [intros []|constructor].
  - constructor.
    + rewrite in_app_iff. cbn. intros [H | [H | []]]; [tauto|].
      subst. tauto.
    + apply IH. tauto.
Qed.

Lemma add_listed_containers_names (lines : list string) :
  forall acc containers,
    add_listed_containers lines acc = Ok containers ->
    NoDup (map fst acc) ->
    NoDup (map fst containers)
    /\ length containers <= length acc + length lines.
Proof.
  induction lines as [|line rest IH]; intros acc containers;
    cbn [add_listed_containers length].
  - intros [= <-] Hnd. split; [assumption|lia].
  - pose proof (add_listed_container_shape line acc) as S.
    destruct (3 <=? length (fields line))%nat.
    + destruct S as (f0 & f1 & f2 & ->). intros H Hnd.
      match type of H with
      | add_listed_containers _ (dict_set ?k ?v _) = _ =>
          destruct (dict_set_keys k v acc) as [[Hk Hl] | (Hout & Hk & Hl)]
      end.
      * destruct (IH _ _ H) as [N L]; [now rewrite Hk|].
        split; [assumption|lia].
      * destruct (IH _ _ H) as [N L];
          [rewrite Hk; now apply NoDup_snoc|].
        split; [assumption|lia].
    + rewrite S. discriminate.
Qed.

(** X6: The dictionary that [get_lxc_containers] returns never has a name
    twice, and never more entries than the listing has lines after the
    header: a row with a name seen before replaces that container. *)
Theorem pct_list_names_unique (stdout : string)
    (containers : dict container) :
  parse_pct_list stdout = Ok containers ->
  NoDup (map fst containers)
  /\ length containers <= length (tl (splitlines stdout)).
Proof.
  unfold parse_pct_list. intros H.
  apply add_listed_containers_names in H; [|constructor].
  exact H.
Qed.

Lemma pct_list_names_unique_witness :
  parse_pct_list ("VMID Status Lock Name" ++ NL ++ "101 running web" ++ NL
                  ++ "102 stopped web" ++ NL)
  = Ok [("web", listed "102" false)]
  /\ NoDup (map fst [("web", listed "102" false)]).
Proof.
  split; [reflexivity|].
  exact (proj1 (pct_list_names_unique
                  ("VMID Status Lock Name" ++ NL ++ "101 running web" ++ NL
                   ++ "102 stopped web" ++ NL)
                  [("web", listed "102" false)] eq_refl)).
Defined.

(** ** More on [install_openssh] and the missing [id] *)

Section Reconcilers.

Variable World : Type.
Variable pct_exec : string -> command -> World -> CompletedProcess * World.

(** X8: With [sshd] on the path no package is installed, whatever the
    id.  The call sends the probe and the service check.  When the
    check succeeds it reports no change and stops there; when the check
    fails it sends the enable-and-start command and reports a change
    without reading what that command returned. *)
Theorem sshd_present_never_installs (c : container) (id : string)
    (h : host World) :
  version_id c = Ok id ->
  let probe := pct_exec (vmid c) CommandVSshd (world h) in
  returncode (fst probe) = 0%Z ->
  let check := if id =? "alpine" then RcServiceCheck else SystemctlCheck in
  let configure :=
    if id =? "alpine" then RcConfigure else SystemctlConfigure in
  let checked := fst (pct_exec (vmid c) check (snd probe)) in
  let r := install_openssh pct_exec c h in
  (returncode checked = 0%Z ->
   fst r
   = Ok (false, "OpenSSH is already installed and properly configured.")
   /\ trace (snd r)
      = (trace h ++ [(vmid c, CommandVSshd); (vmid c, check)])%list)
  /\ (returncode checked <> 0%Z ->
      fst r = Ok (true, "SSH service started and enabled.")
      /\ trace (snd r)
         = (trace h ++ [(vmid c, CommandVSshd); (vmid c, check);
                        (vmid c, configure)])%list).
Proof.
  intros Hid probe Hrc check configure checked r.
  subst r checked check configure probe.
  unfold install_openssh, bind, lift, ret, run_command_silently.
  rewrite subprocess_run_eq. rewrite Hrc, Hid. cbn [Z.eqb].
  rewrite subprocess_run_eq. cbn [fst snd world].
  split.
  - intros ->. cbn [Z.eqb fst snd trace]. now rewrite <- app_assoc.
  - intros Hne. apply Z.eqb_neq in Hne. rewrite Hne.
    rewrite subprocess_run_eq. cbn [fst snd trace].
    now rewrite <- !app_assoc.
Qed.

(** X9: A container record without ['version'], or whose os-release had no
    [id], makes [install_openssh] raise [KeyError] right after the
    probe for [sshd] has been sent. *)
Theorem install_openssh_without_id (c : container) (e : exn)
    (h : host World) :
  version_id c = Raise e ->
  let r := install_openssh pct_exec c h in
  fst r = Raise e
  /\ trace (snd r) = (trace h ++ [(vmid c, CommandVSshd)])%list.
Proof.
  intros Hid r. subst r.
  unfold install_openssh, bind, lift.
  rewrite subprocess_run_eq. rewrite Hid.
  now destruct (returncode _ =? 0)%Z.
Qed.

(** X10: On the change path [set_ssh_password_authentication] reads the id
    only after the rewrite: without an id the [sed] command has been
    sent when [KeyError] is raised, and the service is not restarted. *)
Theorem password_auth_without_id (c : container) (status : string)
    (e : exn) (h : host World) :
  version_id c = Raise e ->
  let probe := fst (pct_exec (vmid c) GrepPasswordAuthentication (world h)) in
  returncode probe = 0%Z ->
  existsb (fun line => startswith line ("PasswordAuthentication " ++ status))
          (splitlines (stdout probe)) = false ->
  let r := set_ssh_password_authentication pct_exec c status h in
  fst r = Raise e
  /\ trace (snd r)
     = (trace h ++ [(vmid c, GrepPasswordAuthentication);
                    (vmid c, SedPasswordAuthentication status)])%list.
Proof.
  intros Hid probe Hrc Hline r. subst r probe.
  unfold set_ssh_password_authentication, bind, lift, ret.
  rewrite subprocess_run_eq. rewrite Hrc, Hline. cbn [Z.eqb negb].
  rewrite subprocess_run_eq. rewrite Hid. cbn [fst snd trace].
  split; [reflexivity|]. now rewrite <- app_assoc.
Qed.

End Reconcilers.

Lemma sshd_present_never_installs_witness :
  let r := install_openssh (container_exec service_down) (box "centos")
             (start sealed) in
  returncode (fst (container_exec service_down "101" SystemctlCheck sealed))
  <> 0%Z
  /\ fst r = Ok (true, "SSH service started and enabled.")
  /\ trace (snd r)
     = [("101", CommandVSshd); ("101", SystemctlCheck);
        ("101", SystemctlConfigure)].
Proof.
  cbv zeta.
  assert (N : returncode (fst (container_exec service_down "101"
                                 SystemctlCheck sealed)) <> 0%Z)
    by discriminate.
  split; [exact N|].
  exact (proj2 (sshd_present_never_installs container_state
                  (container_exec service_down) (box "centos") "centos"
                  (start sealed) eq_refl eq_refl) N).
Defined.

Lemma install_openssh_without_id_witness :
  let r := install_openssh (container_exec quiet) (listed "101" true)
             (start sealed) in
  fst r = Raise (KeyError "version")
  /\ trace (snd r) = [("101", CommandVSshd)].
Proof.
  exact (install_openssh_without_id container_state (container_exec quiet)
           (listed "101" true) (KeyError "version") (start sealed) eq_refl).
Defined.

Lemma password_auth_without_id_witness :
  let st := with_config ("#PasswordAuthentication yes" ++ NL) in
  let r := set_ssh_password_authentication (container_exec quiet)
             (listed "101" true) "no" (start st) in
  fst r = Raise (KeyError "version")
  /\ sshd_config (world (snd r)) = Some ("PasswordAuthentication no" ++ NL)
  /\ trace (snd r)
     = [("101", GrepPasswordAuthentication);
        ("101", SedPasswordAuthentication "no")].
Proof.
  cbv zeta.
  destruct (password_auth_without_id container_state (container_exec quiet)
              (listed "101" true) "no" (KeyError "version")
              (start (with_config ("#PasswordAuthentication yes" ++ NL)))
              eq_refl eq_refl eq_refl) as [H T].
  split; [exact H|]. split; [reflexivity|exact T].
Defined.

(** ** The password reconciler over several calls *)

Lemma join_split (s : string) : join_lines (split LF s) = s.
Proof.
  induction s as [|c t IH]; cbn [split]; [reflexivity|].
  pose proof (split_nonempty LF t) as Hne.
  destruct (Ascii.eqb c LF) eqn:E.
  - apply Ascii.eqb_eq in E. subst c.
    destruct (split LF t) as [|l r]; [congruence|].
    change (join_lines ("" :: l :: r)) with (NL ++ join_lines (l :: r)).
    now rewrite IH.
  - destruct (split LF t) as [|l r]; [congruence|].
    rewrite <- IH. now destruct r.
Qed.

Lemma sed_line_idempotent (status line : string) :
  sed_safe status = true ->
  sed_line status (sed_line status line) = sed_line status line.
Proof.
  intros Hsafe. destruct (directive_line_decide line) as [D | D].
  - rewrite (sed_line_directive _ _ Hsafe D).
    apply (sed_line_directive _ _ Hsafe), directive_line_desired.
  - rewrite (sed_line_other _ _ D). now apply sed_line_other.
Qed.

(** X11: Running the [sed] rewrite again on its own output changes
    nothing. *)
Theorem sed_rewrite_idempotent (status text : string) :
  sed_safe status = true ->
  sed_text status (sed_text status text) = sed_text status text.
Proof.
  intros Hsafe. unfold sed_text at 1. rewrite (sed_text_lines _ _ Hsafe).
  unfold sed_text. f_equal. rewrite map_map. apply map_ext.
  intros l. now apply sed_line_idempotent.
Qed.

Lemma sed_rewrite_idempotent_witness :
  sed_safe "no" = true
  /\ sed_text "no" ("PasswordAuthentication no" ++ NL)
     = "PasswordAuthentication no" ++ NL.
Proof.
  split; [reflexivity|].
  exact (sed_rewrite_idempotent "no" ("#PasswordAuthentication yes" ++ NL)
           eq_refl).
Defined.

Lemma sed_text_without_directive (status text : string) :
  (forall line, In line (split LF text) -> ~ directive_line line) ->
  sed_text status text = text.
Proof.
  intros H. unfold sed_text. rewrite <- (join_split text) at 2. f_equal.
  rewrite <- (map_id (split LF text)) at 2. apply map_ext_in.
  intros l Hl. apply sed_line_other. now apply H.
Qed.

Lemma in_split_text_lines (s l : string) :
  In l (split LF s) -> l <> "" -> In l (text_lines s).
Proof.
  unfold text_lines. intros Hin Hne.
  destruct (last (split LF s) "x") eqn:L; [|assumption].
  pose proof (split_nonempty LF s) as Hs.
  rewrite (app_removelast_last "x" Hs), L in Hin.
  apply in_app_or in Hin as [H | [H | []]]; [assumption|congruence].
Qed.

Lemma join_lines_plain (ls : list string) :
  Forall plain_line ls -> plain_text (join_lines ls).
Proof.
  assert (P : forall l, plain_line l -> plain_text l).
  { intros l. unfold plain_line, plain_text. apply all_chars_impl.
    intros c ->. reflexivity. }
  induction 1 as [|l r Hl Hr IH]; [reflexivity|].
  destruct r as [|l2 r]; [now apply P|].
  change (join_lines (l :: l2 :: r)) with (l ++ NL ++ join_lines (l2 :: r)).
  unfold plain_text in *. rewrite !all_chars_append.
  rewrite (P l Hl), IH. reflexivity.
Qed.

Lemma sed_text_plain (status text : string) :
  sed_safe status = true -> plain_line status -> plain_text text ->
  plain_text (sed_text status text).
Proof.
  intros Hsafe Hst Htext. unfold sed_text. apply join_lines_plain.
  apply split_plain in Htext.
  induction Htext as [|l r Hl Hr IH]; cbn [map]; constructor; [|exact IH].
  destruct (directive_line_decide l) as [D | D].
  - rewrite (sed_line_directive _ _ Hsafe D).
    unfold plain_line in *. now rewrite all_chars_append, Hst.
  - now rewrite (sed_line_other _ _ D).
Qed.

(** One call on a container whose configuration file is there, with
    the answer of the probe spelled out. *)
Lemma password_auth_call
    (other : command -> container_state -> CompletedProcess * container_state)
    (c : container) (status id text : string)
    (h : host container_state) :
  leaves_files other ->
  version_id c = Ok id ->
  sshd_config (world h) = Some text ->
  plain_text text ->
  let r := set_ssh_password_authentication (container_exec other) c status
             h in
  match grep_lines text with
  | [] => fst r = Ok not_configured /\ world (snd r) = world h
  | _ =>
      if existsb (fun line => startswith line
                                ("PasswordAuthentication " ++ status))
                 (grep_lines text)
      then fst r = Ok already_set /\ world (snd r) = world h
      else fst r = Ok (directive_set status)
           /\ world (snd r) = snd (sed_in_place status (world h))
  end.
Proof.
  intros Hother Hid Hcfg Hplain r. subst r.
  unfold set_ssh_password_authentication, bind, lift, ret.
  rewrite subprocess_run_eq.
  cbn [container_exec fst snd world]. unfold grep_probe. rewrite Hcfg.
  destruct (grep_lines text) as [|l ls] eqn:G.
  - now cbn.
  - cbn [completed returncode stdout Z.eqb negb].
    rewrite <- G. rewrite (probe_lines _ Hplain).
    destruct (existsb _ (grep_lines text)).
    + now cbn.
    + rewrite subprocess_run_eq. rewrite Hid.
      rewrite subprocess_run_eq. cbn [fst snd world].
      split; [reflexivity|].
      assert (F : forall cmd s,
                 fixed_command cmd ->
                 snd (container_exec other (vmid c) cmd s) = s).
      { intros cmd s Hc. destruct cmd; cbn in *; try apply Hother; tauto. }
      apply F. now destruct (id =? "alpine").
Qed.

Lemma contains_tail (needle t : string) (c : ascii) :
  contains needle t = true -> contains needle (String c t) = true.
Proof. cbn [contains]. intros ->. apply orb_true_r. Qed.

Lemma directive_line_has_keyword (l : string) :
  directive_line l -> contains "PasswordAuthentication" l = true.
Proof.
  intros (sep & value & _ & [-> | ->]).
  - apply (contains_prefix _ (String sep value)).
    apply prefix_append. exists "". symmetry. apply append_nil_r.
  - change ("#PasswordAuthentication" ++ String sep value)
      with (String "#" ("PasswordAuthentication" ++ String sep value)).
    apply contains_tail.
    apply (contains_prefix _ (String sep value)).
    apply prefix_append. exists "". symmetry. apply append_nil_r.
Qed.

(** X12: Convergence: on a writable container whose configuration has a
    directive line, commented or not, the second of two calls in a row
    finds the directive set and reports no change. *)
Theorem password_auth_settles
    (other : command -> container_state -> CompletedProcess * container_state)
    (c : container) (status id text : string) (st : container_state) :
  leaves_files other ->
  version_id c = Ok id ->
  sshd_config st = Some text ->
  read_only st = false ->
  plain_text text ->
  sed_safe status = true ->
  plain_line status ->
  (exists line, In line (split LF text) /\ directive_line line) ->
  let first := set_ssh_password_authentication (container_exec other) c
                 status (start st) in
  let second := set_ssh_password_authentication (container_exec other) c
                  status (snd first) in
  fst second = Ok already_set.
Proof.
  intros Hother Hid Hcfg Hro Hplain Hsafe Hst (line & Hin & Hdir)
    first second.
  assert (Hfound : forall text0 l,
            In l (text_lines text0) ->
            startswith l ("PasswordAuthentication " ++ status) = true ->
            In l (grep_lines text0)).
  { intros text0 l Hl Hp. apply filter_In. split; [assumption|].
    apply (contains_prefix _ (" " ++ status)). exact Hp. }
  pose proof directive_line_has_keyword as Hkw.
  pose proof (password_auth_call other c status id text (start st)
                Hother Hid Hcfg Hplain) as H1.
  cbv zeta in H1. fold first in H1.
  assert (G : grep_lines text <> []).
  { intros E.
    assert (Hl : In line (grep_lines text)).
    { apply filter_In. split; [|now apply Hkw].
      apply in_split_text_lines; [assumption|].
      intros ->. destruct Hdir as (? & ? & _ & [? | ?]); discriminate. }
    now rewrite E in Hl. }
  destruct (grep_lines text) as [|g gs] eqn:Eg; [congruence|].
  rewrite <- Eg in H1.
  destruct (existsb _ (grep_lines text)) eqn:Sat.
  - (* already satisfied: the container is untouched *)
    destruct H1 as [_ W1].
    pose proof (password_auth_call other c status id text (snd first)
                  Hother Hid) as H2.
    rewrite W1 in H2. specialize (H2 Hcfg Hplain). cbv zeta in H2.
    fold second in H2. rewrite Eg in H2. rewrite <- Eg, Sat in H2.
    apply H2.
  - (* rewritten *)
    destruct H1 as [_ W1]. cbn [start world] in W1.
    unfold sed_in_place in W1. rewrite Hcfg, Hro in W1. cbn [snd] in W1.
    set (text' := sed_text status text) in *.
    assert (Hcfg' : sshd_config (world (snd first)) = Some text')
      by now rewrite W1.
    assert (Hplain' : plain_text text') by now apply sed_text_plain.
    pose proof (password_auth_call other c status id text' (snd first)
                  Hother Hid Hcfg' Hplain') as H2.
    cbv zeta in H2. fold second in H2.
    assert (Hnew : In ("PasswordAuthentication " ++ status)
                      (grep_lines text')).
    { apply Hfound.
      - apply in_split_text_lines; [|discriminate].
        subst text'. rewrite (sed_text_lines _ _ Hsafe).
        rewrite <- (sed_line_directive status line Hsafe Hdir).
        now apply in_map.
      - apply prefix_append. exists "". now rewrite append_nil_r. }
    destruct (grep_lines text') as [|g' gs'] eqn:Eg'; [destruct Hnew|].
    rewrite <- Eg' in H2.
    assert (Sat' : existsb
                     (fun l => startswith l
                                 ("PasswordAuthentication " ++ status))
                     (grep_lines text') = true).
    { apply existsb_exists. eexists. split; [rewrite Eg'; exact Hnew|].
      apply prefix_append. exists "". now rewrite append_nil_r. }
    rewrite Sat' in H2. apply H2.
Qed.

Lemma password_auth_settles_witness :
  let st := with_config ("Port 22" ++ NL ++ "#PasswordAuthentication yes"
                         ++ NL) in
  let first := set_ssh_password_authentication (container_exec quiet)
                 (box "debian") "no" (start st) in
  fst first = Ok (directive_set "no")
  /\ fst (set_ssh_password_authentication (container_exec quiet)
            (box "debian") "no" (snd first))
     = Ok already_set.
Proof.
  cbv zeta. split; [reflexivity|].
  apply (password_auth_settles quiet (box "debian") "no" "debian"
           ("Port 22" ++ NL ++ "#PasswordAuthentication yes" ++ NL)
           (with_config ("Port 22" ++ NL ++ "#PasswordAuthentication yes"
                         ++ NL))).
  - intros c st. reflexivity.
  - reflexivity.
  - reflexivity.
  - reflexivity.
  - reflexivity.
  - reflexivity.
  - reflexivity.
  - exists "#PasswordAuthentication yes". split; [right; now left|].
    exists " "%char, "yes". split; [reflexivity|now right].
Defined.

(** X13: No convergence: when the keyword occurs in the file but only in
    lines that the [sed] pattern does not match (after a blank, or
    after [# ]), the call reports a change and leaves the container
    exactly as it was, so every later call reports a change again. *)
Theorem password_auth_never_settles
    (other : command -> container_state -> CompletedProcess * container_state)
    (c : container) (status id text : string) (st : container_state) :
  leaves_files other ->
  version_id c = Ok id ->
  sshd_config st = Some text ->
  plain_text text ->
  grep_lines text <> [] ->
  (forall line, In line (split LF text) -> ~ directive_line line) ->
  let r := set_ssh_password_authentication (container_exec other) c status
             (start st) in
  fst r = Ok (directive_set status) /\ world (snd r) = st.
Proof.
  intros Hother Hid Hcfg Hplain G Hnone r.
  pose proof (password_auth_call other c status id text (start st)
                Hother Hid Hcfg Hplain) as H1.
  cbv zeta in H1. fold r in H1.
  destruct (grep_lines text) as [|g gs] eqn:Eg; [congruence|].
  rewrite <- Eg in H1.
  destruct (existsb _ (grep_lines text)) eqn:Sat.
  - exfalso. apply existsb_exists in Sat as (l & Hl & Hp).
    apply filter_In in Hl as [Hl _]. apply in_text_lines in Hl.
    apply (Hnone l Hl).
    apply prefix_append in Hp as (t & ->).
    apply directive_line_append, directive_line_desired.
  - destruct H1 as [R W]. split; [exact R|]. rewrite W.
    cbn [start world]. unfold sed_in_place. rewrite Hcfg.
    destruct (read_only st); [reflexivity|]. cbn [snd].
    rewrite (sed_text_without_directive _ _ Hnone).
    destruct st; cbn in *. now subst.
Qed.

Lemma password_auth_never_settles_witness :
  let st := with_config ("# PasswordAuthentication yes" ++ NL) in
  let r := set_ssh_password_authentication (container_exec quiet)
             (box "debian") "no" (start st) in
  fst r = Ok (directive_set "no") /\ world (snd r) = st.
Proof.
  cbv zeta.
  apply (password_auth_never_settles quiet (box "debian") "no" "debian"
           ("# PasswordAuthentication yes" ++ NL)).
  - intros c st. reflexivity.
  - reflexivity.
  - reflexivity.
  - reflexivity.
  - discriminate.
  - intros line [<- | [<- | []]] (sep & value & _ & [H | H]);
      discriminate.
Defined.

(** ** What one rewrite by the enforcer does to the file *)




(** ** The keys reconciler over several calls *)











(** ** What [main] never does, however the run ends *)

Section Safety.

Variable World : Type.
Variable pct_exec : string -> command -> World -> CompletedProcess * World.
Variable host_file : string -> option string.
Variable P : string * command -> Prop.
Variable Q : output -> Prop.

Lemma safe_ret {A} (a : A) (R : A -> Prop) :
  R a -> safe P Q (ret (World := World) a) R.
Proof.
  intros Ha h HP HQ. cbn. repeat split; auto. now intros ? [= <-].
Qed.

Lemma safe_lift {A} (r : res A) :
  safe P Q (lift (World := World) r) (fun _ => True).
Proof. intros h HP HQ. cbn. auto. Qed.

Lemma safe_bind {A B} (m : M World A) (k : A -> M World B)
    (R : A -> Prop) (R' : B -> Prop) :
  safe P Q m R ->
  (forall a, R a -> safe P Q (k a) R') ->
  safe P Q (bind m k) R'.
Proof.
  intros Hm Hk h HP HQ.
  destruct (Hm h HP HQ) as (P1 & Q1 & R1). unfold bind.
  destruct (m h) as [[a | e] h']; cbn [fst snd] in *.
  - now apply (Hk a (R1 a eq_refl)).
  - repeat split; auto. discriminate.
Qed.

Lemma safe_subprocess_run (v : string) (c : command) :
  P (v, c) -> safe P Q (subprocess_run pct_exec v c) (fun _ => True).
Proof.
  intros Hc h HP HQ. rewrite subprocess_run_eq. cbn [fst snd trace console].
  repeat split; auto. apply Forall_app. split; [assumption|].
  now constructor.
Qed.

Lemma safe_emit (o : output) :
  Q o -> safe P Q (emit World o) (fun _ => True).
Proof.
  intros Ho h HP HQ. cbn. repeat split; auto.
  apply Forall_app. split; [assumption|]. now constructor.
Qed.

Lemma safe_get_linux_version (v : string) :
  P (v, CatOsRelease) ->
  safe P Q (get_linux_version pct_exec v) (fun _ => True).
Proof.
  intros Hc. unfold get_linux_version.
  eapply safe_bind; [now apply safe_subprocess_run|].
  intros result _. apply safe_lift.
Qed.

Lemma safe_install_openssh (c : container) :
  (forall cmd, fixed_command cmd -> P (vmid c, cmd)) ->
  safe P Q (install_openssh pct_exec c) (fun _ => True).
Proof.
  intros Hc. unfold install_openssh, run_command_silently.
  eapply safe_bind; [apply safe_subprocess_run; now apply Hc|].
  intros check _. destruct (returncode check =? 0)%Z.
  - eapply safe_bind; [apply safe_lift|]. intros id _.
    eapply safe_bind.
    { apply safe_subprocess_run, Hc. now destruct (id =? "alpine"). }
    intros service _. destruct (returncode service =? 0)%Z.
    + now apply safe_ret.
    + eapply safe_bind; [apply safe_lift|]. intros id' _.
      eapply safe_bind.
      { apply safe_subprocess_run, Hc. now destruct (id' =? "alpine"). }
      intros _ _. now apply safe_ret.
  - eapply safe_bind; [apply safe_lift|]. intros id _.
    destruct (install_command_for id) as [cmd|] eqn:E.
    + eapply safe_bind.
      { apply safe_subprocess_run, Hc. unfold install_command_for in E.
        destruct (id =? "alpine"); [now injection E as <-|].
        destruct (existsb _ _); [now injection E as <-|].
        destruct (existsb _ _); [now injection E as <-|discriminate]. }
      intros result _. destruct (negb _); now apply safe_ret.
    + now apply safe_ret.
Qed.

Lemma safe_set_ssh_password_authentication (c : container)
    (status : string) :
  (forall cmd, fixed_command cmd -> P (vmid c, cmd)) ->
  P (vmid c, SedPasswordAuthentication status) ->
  safe P Q (set_ssh_password_authentication pct_exec c status)
       (fun _ => True).
Proof.
  intros Hc Hsed. unfold set_ssh_password_authentication.
  eapply safe_bind; [apply safe_subprocess_run; now apply Hc|].
  intros result _. destruct (negb _); [now apply safe_ret|].
  destruct (existsb _ _); [now apply safe_ret|].
  eapply safe_bind; [now apply safe_subprocess_run|]. intros _ _.
  eapply safe_bind; [apply safe_lift|]. intros id _.
  eapply safe_bind.
  { apply safe_subprocess_run, Hc. now destruct (id =? "alpine"). }
  intros _ _. now apply safe_ret.
Qed.

Lemma safe_add_ssh_public_keys (c : container) (key_file : string)
    (remove_existing : bool) :
  (forall content,
     host_file key_file = Some content -> strip content <> "" ->
     P (vmid c, KeysScript (strip content) remove_existing)) ->
  safe P Q (add_ssh_public_keys pct_exec host_file c key_file
              remove_existing)
       (fun _ => True).
Proof.
  intros Hc. unfold add_ssh_public_keys.
  destruct (host_file key_file) as [content|]; [|now apply safe_ret].
  destruct (String.eqb_spec (strip content) ""); [now apply safe_ret|].
  eapply safe_bind; [apply safe_subprocess_run; now apply Hc|].
  intros result _.
  destruct (_ =? 0)%Z; [|destruct (_ =? 1)%Z]; now apply safe_ret.
Qed.

End Safety.

Section SafetyOfMain.

Variable World : Type.
Variable pct_exec : string -> command -> World -> CompletedProcess * World.
Variable host_file : string -> option string.

Lemma safe_reconcile_loop (P : string * command -> Prop)
    (reconciler : container -> M World (bool * string)) (total : nat)
    (items : dict container) :
  (forall name data, In (name, data) items -> running data = true ->
     safe P (progress_in_range total) (reconciler data) (fun _ => True)) ->
  forall i,
    i + length items = total ->
    safe P (progress_in_range total)
         (reconcile_loop reconciler total i items) (fun _ => True).
Proof.
  induction items as [|[name data] rest IH]; intros Hrec i Hi;
    cbn [reconcile_loop].
  - now apply safe_ret.
  - cbn [length] in Hi.
    assert (Hbar : forall message,
              safe P (progress_in_range total)
                   (print_progress_bar World (i + 1) total message name)
                   (fun _ => True)).
    { intros message. apply safe_emit. cbn. lia. }
    eapply safe_bind with (R := fun _ => True).
    + destruct (running data) eqn:Hrun; [|apply Hbar].
      eapply safe_bind; [apply (Hrec name data); auto; now left|].
      intros [result message] _. apply Hbar.
    + intros _ _. apply IH; [|lia].
      intros n d Hin Hr. apply (Hrec n d); [now right|exact Hr].
Qed.

Lemma safe_os_info_loop (P : string * command -> Prop) (total : nat)
    (items : dict container) :
  (forall name data, In (name, data) items -> running data = true ->
     P (vmid data, CatOsRelease)) ->
  forall i,
    i + length items = total ->
    safe P (progress_in_range total)
         (os_info_loop pct_exec total i items)
         (fun items' => roster items' = roster items).
Proof.
  induction items as [|[name data] rest IH]; intros Hrec i Hi;
    cbn [os_info_loop].
  - now apply safe_ret.
  - cbn [length] in Hi.
    assert (Hbar : forall message,
              safe P (progress_in_range total)
                   (print_progress_bar World (i + 1) total message name)
                   (fun _ => True)).
    { intros message. apply safe_emit. cbn. lia. }
    eapply safe_bind
      with (R := fun d => vmid d = vmid data /\ running d = running data).
    + destruct (running data) eqn:Hrun.
      * eapply safe_bind.
        { apply safe_get_linux_version. apply (Hrec name data); auto.
          now left. }
        intros v _. eapply safe_bind; [apply Hbar|].
        intros _ _. apply safe_ret. cbn. auto.
      * eapply safe_bind; [apply Hbar|].
        intros _ _. apply safe_ret. auto.
    + intros data' [Hv Hr]. eapply safe_bind.
      * apply IH; [|lia].
        intros n d Hin Hd. apply (Hrec n d); [now right|exact Hd].
      * intros rest' Hrest. apply safe_ret.
        cbn [roster map fst snd]. fold (roster rest') (roster rest).
        now rewrite Hv, Hr, Hrest.
Qed.

Lemma in_roster (name : string) (data : container)
    (items : dict container) :
  In (name, data) items -> running data = true ->
  In (name, vmid data, true) (roster items).
Proof.
  intros Hin Hrun. unfold roster.
  apply in_map_iff. exists (name, data). cbn [fst snd].
  now rewrite Hrun.
Qed.

(** The run as a whole keeps both logs within bounds, whether it ends
    normally or with an exception. *)
Lemma main_safe (containers : dict container) :
  safe (sent_by_main (roster containers) host_file)
       (progress_in_range (length containers))
       (main pct_exec host_file containers) (fun _ => True).
Proof.
  set (P := sent_by_main (roster containers) host_file).
  set (total := length containers).
  assert (Hfixed : forall items name data cmd,
            roster items = roster containers ->
            In (name, data) items -> running data = true ->
            fixed_command cmd -> P (vmid data, cmd)).
  { intros items name data cmd Hro Hin Hrun Hcmd. split.
    - exists name. cbn [fst]. rewrite <- Hro. now apply in_roster.
    - cbn [snd]. now destruct cmd. }
  unfold main.
  eapply safe_bind; [now apply safe_emit|]. intros _ _.
  eapply safe_bind; [now apply safe_emit|]. intros _ _.
  eapply safe_bind.
  { apply safe_os_info_loop; [|reflexivity].
    intros name data Hin Hrun.
    now apply (Hfixed containers name data). }
  intros items Hro. cbv beta in Hro.
  eapply safe_bind; [now apply safe_emit|]. intros _ _.
  assert (Hlen : 0 + length items = total).
  { subst total. cbn. rewrite <- (length_map (fun item =>
      (fst item, vmid (snd item), running (snd item))) items).
    fold (roster items). rewrite Hro. unfold roster. apply length_map. }
  eapply safe_bind.
  { apply safe_reconcile_loop; [|exact Hlen].
    intros name data Hin Hrun. apply safe_install_openssh.
    intros cmd. now apply (Hfixed items name data). }
  intros _ _.
  eapply safe_bind; [now apply safe_emit|]. intros _ _.
  eapply safe_bind.
  { apply safe_reconcile_loop; [|exact Hlen].
    intros name data Hin Hrun.
    apply safe_set_ssh_password_authentication.
    - intros cmd. now apply (Hfixed items name data).
    - split; [|reflexivity].
      exists name. cbn [fst]. rewrite <- Hro. now apply in_roster. }
  intros _ _.
  destruct (host_file "keys.pub") as [content|] eqn:K.
  - eapply safe_bind; [now apply safe_emit|]. intros _ _.
    apply safe_reconcile_loop; [|exact Hlen].
    intros name data Hin Hrun. apply safe_add_ssh_public_keys.
    intros content' Hfile Hne. split.
    + exists name. cbn [fst]. rewrite <- Hro. now apply in_roster.
    + cbn [snd]. split; [reflexivity|]. split; [assumption|].
      now exists content'.
  - now apply safe_emit.
Qed.



(** X21: Whatever happens during the run, every call of [print_progress_bar]
    has the number of containers as its total and an iteration between
    1 and that total: the division by the total is never a division by
    zero. *)
Theorem main_progress_in_range (containers : dict container) (w : World) :
  Forall (progress_in_range (length containers))
         (console (snd (main pct_exec host_file containers (start w)))).
Proof.
  destruct (main_safe containers (start w)) as (_ & H & _);
    try constructor.
  exact H.
Qed.

End SafetyOfMain.

(** ** Smaller facts *)

(** X7: The loop of [get_lxc_containers] behaves as if each line were cut
    into words once: the first three words are vmid, status and name,
    later words are ignored, and fewer than three raise [IndexError]. *)
Theorem listing_line_split_once (line : string)
    (containers : dict container) :
  add_listed_container line containers
  = match fields line with
    | f0 :: f1 :: f2 :: _ =>
        Ok (dict_set f2 {| vmid := f0; running := f1 =? "running";
                           version := None |} containers)
    | _ => Raise IndexError
    end.
Proof. unfold add_listed_container. now rewrite listed_line_fields. Qed.

(** X22: For an iteration that does not exceed the total the bar is exactly
    [length] cells wide, and it is all blocks exactly at the last
    iteration. *)
Theorem bar_width (iteration total length : nat) :
  0 < total -> iteration <= total ->
  List.length (bar iteration total length) = length
  /\ (0 < length ->
      (filled_len iteration total length = length <-> iteration = total)).
Proof.
  intros Ht Hi. unfold bar, filled_len.
  pose proof (Nat.div_mod_eq (length * iteration) total) as D.
  pose proof (Nat.mod_upper_bound (length * iteration) total) as U.
  assert (Hle : length * iteration / total <= length) by nia.
  split.
  - rewrite length_app, !repeat_length. lia.
  - intros Hl. split.
    + intros E. rewrite E in D. nia.
    + intros ->. apply Nat.div_mul. lia.
Qed.

Lemma bar_width_witness :
  0 < 3 /\ 2 <= 3 /\ List.length (bar 2 3 50) = 50.
Proof.
  assert (H0 : 0 < 3) by lia. assert (H1 : 2 <= 3) by lia.
  split; [exact H0|]. split; [exact H1|].
  exact (proj1 (bar_width 2 3 50 H0 H1)).
Defined.


